(** * LoRaWAN gateway: join handling, readings cache, config validation

    A shallow embedding of the Go package [gateway] (sensor.go and the file
    of the join procedure) and the properties of its specification that can
    be stated over it.

    Conventions of the embedding:
    - a Go [byte] is a [Z]; [to_byte] is the conversion [byte(x)] of an [int];
    - a Go slice that the code re-slices with constant bounds (the received
      payload) is a [slice]: its visible elements and the rest of its backing
      array up to the capacity, because Go checks [s[lo:hi]] against the
      capacity and [s[lo:]] against the length;
    - slices that are only read as a whole are [list byte];
    - a Go result [(v, err)] is a pair [v * option error]; a computation that
      may end in a run-time panic is a [run];
    - the cryptographic collaborators, the pseudo-random source and the
      payload decoder are parameters of the section [Gateway]. *)

From stdpp Require Import base option list strings gmap fin_maps.
From Stdlib Require Import ZArith Lia.

Local Open Scope Z_scope.
Local Open Scope string_scope.
Local Open Scope list_scope.

(** ** Bytes, panics, errors *)

Definition byte := Z.

(** [byte(x)] for an [int] [x]. *)
Definition to_byte (x : Z) : byte := x mod 256.

Inductive panic : Type :=
| SliceBoundsOutOfRange
| IndexOutOfRange
| SliceToArrayTooShort
| NilPointerDereference
| AssignToNilMap.

Inductive run (A : Type) : Type :=
| Done (a : A)
| Panic (p : panic).
Arguments Done {A} a.
Arguments Panic {A} p.

#[export] Instance run_ret : MRet run := fun A a => Done a.
#[export] Instance run_bind : MBind run :=
  fun A B f m => match m with Done a => f a | Panic p => Panic p end.

(** Error values.  [ErrNew msg] is [errors.New(msg)], [ErrWrap msg e] is
    [fmt.Errorf(msg + ": %w", e)], [ErrConfigValidation path e] is
    [resource.NewConfigValidationError(path, e)], and [ErrCollaborator n]
    is an error value returned by an external collaborator. *)
Inductive error : Type :=
| ErrNew (msg : string)
| ErrWrap (msg : string) (cause : error)
| ErrConfigValidation (path : string) (cause : error)
| ErrCollaborator (code : nat).

(** The errors of the join procedure, under the names the specification
    gives them. *)
Definition UnknownDevice : error := ErrNew "received join request from unknown device".
Definition InvalidMIC : error := ErrNew "invalid MIC".
Definition KeyDerivationFailed (cause : error) : error :=
  ErrWrap "failed to generate AppSKey" cause.
Definition RadioTransmitFailed : error := ErrNew "failed to send join accept packet".

(** ** Slices with capacity *)

Record slice : Type := Slice {
  elems : list byte;   (* s[0], ..., s[len(s)-1] *)
  spare : list byte    (* the backing array from len(s) up to cap(s) *)
}.

Definition len (s : slice) : nat := length (elems s).
Definition cap (s : slice) : nat := (length (elems s) + length (spare s))%nat.
Definition backing (s : slice) : list byte := elems s ++ spare s.

(** [s[lo:hi]]: panics unless [lo <= hi <= cap(s)]. *)
Definition reslice (s : slice) (lo hi : nat) : run slice :=
  if bool_decide (lo ≤ hi)%nat && bool_decide (hi ≤ cap s)%nat
  then Done (Slice (take (hi - lo) (drop lo (backing s))) (drop hi (backing s)))
  else Panic SliceBoundsOutOfRange.

(** [s[lo:]] is [s[lo:len(s)]] and [s[:hi]] is [s[0:hi]]. *)
Definition reslice_from (s : slice) (lo : nat) : run slice := reslice s lo (len s).
Definition reslice_to (s : slice) (hi : nat) : run slice := reslice s 0 hi.

(** [s[i]]: panics unless [i < len(s)]. *)
Definition index (s : slice) (i : nat) : run byte :=
  match elems s !! i with
  | Some b => Done b
  | None => Panic IndexOutOfRange
  end.

(** [bytes.Equal(a, b)] *)
Definition bytes_Equal (a b : list byte) : bool := bool_decide (a = b).

(** Conversion of a slice to an array type of [n] bytes ([types.JoinNonce],
    [types.DevNonce], [types.NetID]): the first [n] elements, a panic when
    the slice is shorter. *)
Definition to_array (n : nat) (l : list byte) : run (list byte) :=
  if bool_decide (n ≤ length l)%nat then Done (take n l) else Panic SliceToArrayTooShort.

(** ** reverseByteArray *)

(** [for i, j := 0, len(arr)-1; i < len(arr); i, j = i+1, j-1 { reversed[i] = arr[j] }];
    [todo] counts the iterations that remain. *)
Fixpoint reverse_loop (todo i : nat) (j : Z) (arr reversed : list byte) : list byte :=
  match todo with
  | O => reversed
  | S todo' =>
      reverse_loop todo' (S i) (j - 1) arr
        (<[i := default 0 (arr !! Z.to_nat j)]> reversed)
  end.

Definition reverseByteArray (arr : list byte) : list byte :=
  reverse_loop (length arr) 0 (Z.of_nat (length arr) - 1) arr
    (replicate (length arr) 0).

(** ** Data model *)

(** [types.AES128Key] is [[16]byte]; the gateway only hands keys to the
    cryptographic collaborators. *)
Definition AES128Key := list byte.

Record Device : Type := mkDevice {
  name : string;
  decoderPath : string;
  nwkSKey : AES128Key;
  appSKey : AES128Key;
  AppKey : AES128Key;
  addr : list byte;
  devEui : list byte
}.

(** [Device{}] *)
Definition zeroDevice : Device := mkDevice "" "" [] [] [] [] [].

Definition set_addr (d : Device) (a : list byte) : Device :=
  mkDevice (name d) (decoderPath d) (nwkSKey d) (appSKey d) (AppKey d) a (devEui d).
Definition set_appSKey (d : Device) (k : AES128Key) : Device :=
  mkDevice (name d) (decoderPath d) (nwkSKey d) k (AppKey d) (addr d) (devEui d).

Record JoinRequest : Type := mkJoinRequest {
  joinEUI : slice;
  devEUI : slice;
  devNonce : slice;
  mic : slice
}.

(** [JoinRequest{}] *)
Definition zeroJoinRequest : JoinRequest :=
  mkJoinRequest (Slice [] []) (Slice [] []) (Slice [] []) (Slice [] []).

(** A [[4]byte] message integrity code and its slice [m[:]]. *)
Record mic4 : Type := Mic4 { mic_0 : byte; mic_1 : byte; mic_2 : byte; mic_3 : byte }.
Definition mic_slice (m : mic4) : list byte := [mic_0 m; mic_1 m; mic_2 m; mic_3 m].

(** [var netID = []byte{1, 2, 3}] *)
Definition netID : list byte := [1; 2; 3].

Definition joinRx2WindowSec : Z := 6.
Definition rx2Frequenecy : Z := 923300000.
Definition rx2SF : Z := 12.
Definition rx2Bandwidth : Z := 0x06.

(** [struct lgw_pkt_tx_s], the fields handleJoin sets. *)
Record TxPkt : Type := mkTxPkt {
  freq_hz : Z;
  tx_mode : Z;
  rf_chain : Z;
  rf_power : Z;
  modulation : Z;
  bandwidth : Z;
  datarate : Z;
  coderate : Z;
  invert_pol : bool;
  size : Z;
  tx_payload : list byte   (* uint8_t payload[256] *)
}.

(** [struct lgw_pkt_rx_s], the fields receivePackets reads. *)
Record RxPkt : Type := mkRxPkt {
  rx_size : nat;            (* uint16_t size, an unsigned value *)
  rx_payload : list byte    (* uint8_t payload[256] *)
}.

(** ** Configuration (sensor.go) *)

Module DeviceConfig.
Record t : Type := mk {
  Name : string;
  JoinType : string;
  DevEUI : string;
  AppSKey : string;
  NwkSKey : string;
  DevAddr : string;
  DecoderPath : string;
  AppKey : string
}.
End DeviceConfig.

Record Config : Type := mkConfig { Devices : list DeviceConfig.t }.

(** The result [([]string, error)] of the validation functions. *)
Definition validation : Type := list string * option error.

Definition invalid (path msg : string) : validation :=
  ([], Some (ErrConfigValidation path (ErrNew msg))).
Definition valid : validation := ([], None).

Definition validateOTAAAttributes (conf : DeviceConfig.t) (path : string) : validation :=
  if bool_decide (DeviceConfig.DevEUI conf = "") then
    invalid path "dev EUI is required for OTAA join type"
  else if bool_decide (String.length (DeviceConfig.DevEUI conf) ≠ 16%nat) then
    invalid path "dev EUI must be 8 bytes"
  else if bool_decide (DeviceConfig.AppKey conf = "") then
    invalid path "app key is required for OTAA join type"
  else if bool_decide (String.length (DeviceConfig.AppKey conf) ≠ 32%nat) then
    invalid path "app key must be 16 bytes"
  else valid.

Definition validateABPAttributes (conf : DeviceConfig.t) (path : string) : validation :=
  if bool_decide (DeviceConfig.AppSKey conf = "") then
    invalid path "app session key is required for ABP join type"
  else if bool_decide (String.length (DeviceConfig.AppSKey conf) ≠ 32%nat) then
    invalid path "app session key must be 16 bytes"
  else if bool_decide (DeviceConfig.NwkSKey conf = "") then
    invalid path "network session key is required for ABP join type"
  else if bool_decide (String.length (DeviceConfig.NwkSKey conf) ≠ 32%nat) then
    invalid path "network session key must be 16 bytes"
  else if bool_decide (DeviceConfig.DevAddr conf = "") then
    invalid path "device address is required for ABP join type"
  else if bool_decide (String.length (DeviceConfig.DevAddr conf) ≠ 8%nat) then
    invalid path "device address must be 4 bytes"
  else valid.

(** One pass through the body of a [for ... range] loop either returns from
    the enclosing function or falls through to the next element. *)
Inductive flow (R : Type) : Type :=
| Return (r : R)
| Next.
Arguments Return {R} r.
Arguments Next {R}.

Fixpoint range {A R : Type} (body : A → flow R) (l : list A) (after : R) : R :=
  match l with
  | [] => after
  | x :: rest =>
      match body x with
      | Return r => r
      | Next => range body rest after
      end
  end.

(** The body of the loop of [Config.Validate]: every arm of the switch
    returns. *)
Definition Validate_body (path : string) (d : DeviceConfig.t) : flow validation :=
  if bool_decide (DeviceConfig.DecoderPath d = "") then
    Return (invalid path "decoder path is required")
  else if bool_decide (DeviceConfig.JoinType d = "ABP") then
    Return (validateABPAttributes d path)
  else if bool_decide (DeviceConfig.JoinType d = "OTAA")
          || bool_decide (DeviceConfig.JoinType d = "") then
    Return (validateOTAAAttributes d path)
  else
    Return (invalid path "join type is OTAA or ABP - Default is OTAA").

Definition Validate (conf : Config) (path : string) : validation :=
  range (Validate_body path) (Devices conf) valid.

(** What the specification asks of one device of the configuration. *)
Definition spec_well_sized (d : DeviceConfig.t) : Prop :=
  DeviceConfig.DecoderPath d ≠ "" ∧
  ((DeviceConfig.JoinType d = "ABP" ∧
    String.length (DeviceConfig.AppSKey d) = 32%nat ∧
    String.length (DeviceConfig.NwkSKey d) = 32%nat ∧
    String.length (DeviceConfig.DevAddr d) = 8%nat) ∨
   ((DeviceConfig.JoinType d = "OTAA" ∨ DeviceConfig.JoinType d = "") ∧
    String.length (DeviceConfig.DevEUI d) = 16%nat ∧
    String.length (DeviceConfig.AppKey d) = 32%nat)).

(** ** The poll loop (sensor.go, receivePackets) *)

(** [for i := 0; i < int(packet.size); i++ { payload = append(payload, byte(packet.payload[i])) }];
    indexing the 256-byte array past its end panics. *)
Fixpoint copy_payload (todo i : nat) (packet : RxPkt) (payload : list byte) : run (list byte) :=
  match todo with
  | O => Done payload
  | S todo' =>
      match rx_payload packet !! i with
      | Some b => copy_payload todo' (S i) packet (payload ++ [to_byte b])
      | None => Panic IndexOutOfRange
      end
  end.

(** What one iteration of the loop observes: whether the context is done at
    the top of the loop, what [C.receive] returns and leaves in the packet
    buffer, whether the context is done during the 10 ms wait, and the unused
    capacity that [append] leaves behind the payload it builds. *)
Record poll_event : Type := mkPollEvent {
  done_at_top : bool;
  numPackets : Z;
  packet : RxPkt;
  done_in_wait : bool;
  append_spare : list byte
}.

Inductive iteration : Type :=
| Stop                          (* return: the context is done *)
| Idle                          (* nothing handed to handlePacket *)
| Dispatch (payload : slice)    (* g.handlePacket(ctx, payload) *)
| Crash (p : panic).

Definition receiveIteration (ev : poll_event) : iteration :=
  if done_at_top ev then Stop
  else if bool_decide (numPackets ev = 0) then
    (if done_in_wait ev then Stop else Idle)
  else if bool_decide (numPackets ev = 1) then
    (* the loop [for i := 0; i < numPackets; i++] runs once *)
    if bool_decide (rx_size (packet ev) = 0%nat) then Idle
    else
      match copy_payload (rx_size (packet ev)) 0 (packet ev) [] with
      | Done payload => Dispatch (Slice payload (append_spare ev))
      | Panic p => Crash p
      end
  else Idle.

Inductive loop_end : Type :=
| Cancelled
| Running          (* the observed events are used up, the loop goes on *)
| Crashed (p : panic).

(** The loop over a sequence of observations: the payloads handed to
    [handlePacket], in order, and how the observed part of the run ends. *)
Fixpoint receivePackets (events : list poll_event) : list slice * loop_end :=
  match events with
  | [] => ([], Running)
  | ev :: rest =>
      match receiveIteration ev with
      | Stop => ([], Cancelled)
      | Idle => receivePackets rest
      | Dispatch payload =>
          let '(tasks, e) := receivePackets rest in (payload :: tasks, e)
      | Crash p => ([], Crashed p)
      end
  end.

(** ** Pseudo-random bytes *)

(** [rand.New(rand.NewSource(seed))] is a stream of accepted 31-bit draws;
    [rand.Intn(n)], for [n] that is not a power of two, is the next accepted
    draw [v] reduced as [v % n].  [draws seed k] is the [k]-th draw of the
    source seeded with [seed]. *)
Definition rand_Intn (draws : Z → nat → Z) (seed : Z) (k : nat) (n : Z) : Z :=
  draws seed k mod n.

(** [now] is [time.Now().UnixNano()] at the call. *)
Definition generateDevAddr (draws : Z → nat → Z) (now : Z) : list byte :=
  let num1 := rand_Intn draws now 0 255 in
  let num2 := rand_Intn draws now 1 255 in
  [1; 2; to_byte num1; to_byte num2].

Definition generateJoinNonce (draws : Z → nat → Z) (now : Z) : list byte :=
  let num1 := rand_Intn draws now 0 255 in
  let num2 := rand_Intn draws now 1 255 in
  let num3 := rand_Intn draws now 2 255 in
  [to_byte num1; to_byte num2; to_byte num3].

(** ** The readings cache (sensor.go) *)

(** A Go [map[string]interface{}] value: [None] is the nil map.  A value of
    the outer map [lastReadings] is an interface value, whose dynamic type
    is either such a map or something else. *)
Definition gomap (Val : Type) : Type := option (gmap string Val).

Inductive iface (Val : Type) : Type :=
| IfaceMap (m : gomap Val)
| IfaceOther (v : Val).
Arguments IfaceMap {Val} m.
Arguments IfaceOther {Val} v.

(** The keys and values a [range] over a map visits; none for the nil map. *)
Definition map_entries {Val : Type} (m : gomap Val) : list (string * Val) :=
  match m with
  | Some m => map_to_list m
  | None => []
  end.

(** [for key, val := range newReadings { readings[key] = val }]: an
    assignment into the nil map panics. *)
Fixpoint assign_entries {Val : Type} (kvs : list (string * Val)) (readings : gomap Val)
  : run (gomap Val) :=
  match kvs with
  | [] => Done readings
  | (key, val) :: rest =>
      match readings with
      | None => Panic AssignToNilMap
      | Some m => assign_entries rest (Some (<[key := val]> m))
      end
  end.

Definition updateReadings {Val : Type} (lastReadings : gmap string (iface Val))
    (name : string) (newReadings : gomap Val) : run (gmap string (iface Val)) :=
  match lastReadings !! name with
  | Some (IfaceMap readings) =>
      let lastReadings :=
        match readings with
        | None => <[name := IfaceMap (Some ∅)]> lastReadings
        | Some _ => lastReadings
        end in
      readings ← assign_entries (map_entries newReadings) readings;
      Done (<[name := IfaceMap readings]> lastReadings)
  | _ =>
      (* readings for this device does not exist yet *)
      Done (<[name := IfaceMap newReadings]> lastReadings)
  end.

(** ** The gateway state *)

(** The gateway: the readings cache, the devices in the order the range of
    parseJoinRequestPacket visits them, and the packets handed to [C.send]
    so far.  [Val] is the type of a reading, [interface{}] in the source. *)
Record Gateway (Val : Type) : Type := mkGateway {
  lastReadings : gmap string (iface Val);
  devices : list Device;
  sent : list TxPkt
}.
Arguments mkGateway {Val} lastReadings devices sent.
Arguments lastReadings {Val} g.
Arguments devices {Val} g.
Arguments sent {Val} g.

(** What a join transaction reads from its environment: the two clock
    readings and the status [C.send] returns. *)
Record join_env : Type := mkJoinEnv {
  nowNonce : Z;
  nowAddr : Z;
  send_status : Z
}.

(** The join request that parseJoinRequestPacket reads from a payload whose
    capacity allows the four slice expressions. *)
Definition wire_request (payload : slice) : JoinRequest :=
  mkJoinRequest
    (Slice (take 8 (drop 1 (backing payload))) (drop 9 (backing payload)))
    (Slice (take 8 (drop 9 (backing payload))) (drop 17 (backing payload)))
    (Slice (take 2 (drop 17 (backing payload))) (drop 19 (backing payload)))
    (Slice (take 4 (drop 19 (backing payload))) (drop 23 (backing payload))).

(** The plaintext of a join accept:
    MHDR | join nonce (LE) | net id (LE) | device address (LE) | DLSettings | RxDelay. *)
Definition accept_plaintext (jn devAddr : list byte) : list byte :=
  [0x20] ++ reverse jn ++ reverse netID ++ reverse devAddr ++ [0x00; 0x01].

(** ** Fixtures

    Concrete devices, packets and collaborators on which the statements
    below are evaluated. *)

Definition fixture_otaa_config : DeviceConfig.t :=
  DeviceConfig.mk "dragino" "OTAA" "0102030405060708" "" "" ""
    "/decoders/dragino.js" "000102030405060708090a0b0c0d0e0f".

Definition fixture_no_decoder_config : DeviceConfig.t :=
  DeviceConfig.mk "broken" "OTAA" "" "" "" "" "" "".

Definition fixture_config : Config :=
  mkConfig [fixture_otaa_config; fixture_no_decoder_config].

(** Collaborators for the fixtures: a checksum in place of the CMAC, a
    byte-wise xor in place of the block cipher, a key derivation that
    fails on a DevEui of zeros, a counter in place of the generator, and a
    decoder that wants a payload of two bytes. *)
Definition checksum (key msg : list byte) : byte :=
  foldr Z.add 0 (key ++ msg) mod 256.

Definition test_mic (key : AES128Key) (msg : list byte) : mic4 * option error :=
  (Mic4 (checksum key msg) (Z.of_nat (length msg)) 0xA5 0x5A, None).

Definition test_encrypt (key : AES128Key) (msg : list byte) : list byte * option error :=
  (Z.lxor (checksum key []) <$> msg, None).

Definition test_derive (key : AES128Key) (joinEui devEui jn dn nid : list byte)
  : AES128Key * option error :=
  if bool_decide (devEui = replicate (length devEui) 0)
  then ([], Some (ErrCollaborator 1))
  else (take 16 (jn ++ nid ++ dn ++ key), None).

Definition test_draws (seed : Z) (k : nat) : Z := seed + 1000 * Z.of_nat k.

Definition test_decoder (g : Gateway Z) (payload : slice)
  : string * gomap Z * option error :=
  match elems payload with
  | [_; b] => ("sensor", Some {[ "value" := b ]}, None)
  | _ => ("", None, Some (ErrCollaborator 2))
  end.

Definition fixture_key : AES128Key :=
  [0x00; 0x01; 0x02; 0x03; 0x04; 0x05; 0x06; 0x07;
   0x08; 0x09; 0x0a; 0x0b; 0x0c; 0x0d; 0x0e; 0x0f].

(** An OTAA device before its first join; its devEui is big-endian. *)
Definition fixture_device : Device :=
  mkDevice "sensor" "/decoders/sensor.js" [] [] fixture_key []
    [0x08; 0x07; 0x06; 0x05; 0x04; 0x03; 0x02; 0x01].

Definition fixture_zero_eui_device : Device :=
  mkDevice "zero" "/decoders/sensor.js" [] [] fixture_key [] (replicate 8 0).

(** MHDR, joinEUI, devEUI and devNonce of a join request, little-endian. *)
Definition fixture_join_prefix : list byte :=
  [0x00] ++ [0x11; 0x12; 0x13; 0x14; 0x15; 0x16; 0x17; 0x18]
         ++ [0x01; 0x02; 0x03; 0x04; 0x05; 0x06; 0x07; 0x08]
         ++ [0x34; 0x12].

Definition fixture_zero_join_prefix : list byte :=
  [0x00] ++ [0x11; 0x12; 0x13; 0x14; 0x15; 0x16; 0x17; 0x18]
         ++ replicate 8 0
         ++ [0x34; 0x12].

(** The 23-byte join request of [fixture_device] with its MIC. *)
Definition fixture_join_payload : slice :=
  Slice (fixture_join_prefix ++ mic_slice (test_mic fixture_key fixture_join_prefix).1) [].

(** The same request followed by one more byte. *)
Definition fixture_long_payload : slice :=
  Slice (fixture_join_prefix ++ mic_slice (test_mic fixture_key fixture_join_prefix).1
           ++ [0x00]) [].

(** The 23-byte join request of [fixture_zero_eui_device] with its MIC. *)
Definition fixture_zero_join_payload : slice :=
  Slice (fixture_zero_join_prefix
           ++ mic_slice (test_mic fixture_key fixture_zero_join_prefix).1) [].

(** A packet of one byte, the MHDR of a join request, as append builds it. *)
Definition fixture_short_payload : slice := Slice [0x00] (replicate 7 0).

(** A data uplink of one byte, which [test_decoder] fails to decode. *)
Definition fixture_uplink_payload : slice := Slice [0x40] (replicate 7 0).

Definition fixture_gateway : Gateway Z := mkGateway ∅ [fixture_device] [].

Definition fixture_env : join_env := mkJoinEnv 1 2 0.

(** The entry updateReadings leaves under the name of the device: the new
    readings when no map was stored under it, the map after the
    assignments of the loop otherwise. *)
Definition merge_entry {Val : Type} (entry : option (iface Val)) (newReadings : gomap Val)
  : run (iface Val) :=
  match entry with
  | Some (IfaceMap readings) =>
      readings ← assign_entries (map_entries newReadings) readings;
      Done (IfaceMap readings)
  | _ => Done (IfaceMap newReadings)
  end.

(** ** Starting the gateway (sensor.go, newGateway) *)

(** The calls newGateway makes into the hardware layer and the poll loop,
    in the order they are made. *)
Inductive hal_call : Type :=
| HalInitGPIO               (* gpio.InitGPIO() *)
| HalResetGPIO              (* gpio.ResetGPIO() *)
| HalSetUpGateway (i : Z)   (* C.setUpGateway(C.int(i)) *)
| HalReceivePackets.        (* g.receivePackets() *)

(** The zero value of [types.AES128Key]. *)
Definition zeroKey : AES128Key := replicate 16 0.

(** [&Device{name: device.Name, decoderPath: device.DecoderPath}] *)
Definition namedDevice (device : DeviceConfig.t) : Device :=
  mkDevice (DeviceConfig.Name device) (DeviceConfig.DecoderPath device)
    zeroKey zeroKey zeroKey [] [].

(** The body of the device loop of newGateway up to the store into the
    map: the device, or the error the function returns with.
    [hex_DecodeString] is encoding/hex's DecodeString as a Go result; the
    conversion [types.AES128Key(b)] of a slice is [to_array 16]. *)
Definition loadDevice (hex_DecodeString : string → list byte * option error)
    (device : DeviceConfig.t) : run (Device * option error) :=
  let dev := namedDevice device in
  if bool_decide (DeviceConfig.JoinType device = "OTAA")
     || bool_decide (DeviceConfig.JoinType device = "") then
    let '(appKey, err) := hex_DecodeString (DeviceConfig.AppKey device) in
    match err with
    | Some e => Done (dev, Some e)
    | None =>
        key ← to_array 16 appKey;
        let dev := mkDevice (name dev) (decoderPath dev) (nwkSKey dev) (appSKey dev)
                     key (addr dev) (devEui dev) in
        let '(devEui, err) := hex_DecodeString (DeviceConfig.DevEUI device) in
        match err with
        | Some e => Done (dev, Some e)
        | None =>
            Done (mkDevice (name dev) (decoderPath dev) (nwkSKey dev) (appSKey dev)
                    (AppKey dev) (addr dev) devEui, None)
        end
    end
  else if bool_decide (DeviceConfig.JoinType device = "ABP") then
    let '(devAddr, err) := hex_DecodeString (DeviceConfig.DevAddr device) in
    match err with
    | Some e => Done (dev, Some e)
    | None =>
        let dev := set_addr dev devAddr in
        let '(appSKey, err) := hex_DecodeString (DeviceConfig.AppSKey device) in
        match err with
        | Some e => Done (dev, Some e)
        | None =>
            key ← to_array 16 appSKey;
            Done (set_appSKey dev key, None)
        end
    end
  else Done (dev, None).

(** [for _, device := range cfg.Devices { ...; g.devices[device.Name] = dev }]:
    the map built, or the error of the first device that fails to load. *)
Fixpoint loadDevices (hex_DecodeString : string → list byte * option error)
    (configs : list DeviceConfig.t) (devices : gmap string Device)
  : run (gmap string Device * option error) :=
  match configs with
  | [] => Done (devices, None)
  | device :: rest =>
      '(dev, err) ← loadDevice hex_DecodeString device;
      match err with
      | Some e => Done (devices, Some e)
      | None =>
          loadDevices hex_DecodeString rest (<[DeviceConfig.Name device := dev]> devices)
      end
  end.

(** newGateway: [native] is the result of [resource.NativeConfig], and
    [setup_status] what [C.setUpGateway] returns.  The result is the calls
    made, the device map of the gateway returned (its readings cache is
    empty), if one is returned, and the error. *)
Definition newGateway (hex_DecodeString : string → list byte * option error)
    (native : Config * option error) (setup_status : Z)
  : run (list hal_call * option (gmap string Device) * option error) :=
  let '(cfg, err) := native in
  match err with
  | Some e => Done ([], None, Some e)
  | None =>
      let calls := [HalInitGPIO; HalResetGPIO; HalSetUpGateway 0] in
      if bool_decide (setup_status ≠ 0) then
        Done (calls, None, Some (ErrNew "failed to start the gateway"))
      else
        '(devices, err) ← loadDevices hex_DecodeString (Devices cfg) ∅;
        match err with
        | Some e => Done (calls, None, Some e)
        | None => Done (calls ++ [HalReceivePackets], Some devices, None)
        end
  end.

(** A gateway as newGateway returns it, with the devices in some order a
    range over the map may visit them. *)
Definition started {Val : Type} (devs : gmap string Device) (g : Gateway Val) : Prop :=
  lastReadings g = ∅ ∧ sent g = [] ∧ devices g ≡ₚ (map_to_list devs).*2.

(** ** Resetting the concentrator through the board (sensor.go, resetGateway) *)

Inductive board_pin : Type := PinRst | PinPwr.

(** The calls resetGateway makes: [pin.Set(ctx, high, nil)] and the wait of
    100 ms. *)
Inductive board_call : Type :=
| CallSet (pin : board_pin) (high : bool)
| CallWait.

(** How the board answers: the error of the call made as the [k]-th one,
    if it is a Set, and whether the context is still live during it, if it
    is a wait. *)
Record board : Type := mkBoard {
  set_error : nat → option error;
  ctx_live : nat → bool
}.

Definition pin_Set (b : board) (pin : board_pin) (high : bool) (calls : list board_call)
  : list board_call * option error :=
  (calls ++ [CallSet pin high], set_error b (length calls)).

(** [waitGPIO] of package gateway:
    [if !utils.SelectContextOrWait(ctx, 100*time.Millisecond) { return errors.New("context cancelled") }] *)
Definition waitGPIO (b : board) (calls : list board_call) : list board_call * option error :=
  (calls ++ [CallWait],
   if ctx_live b (length calls) then None else Some (ErrNew "context cancelled")).

(** [rst] and [pwr] tell whether the pin is non-nil; a call on the nil
    [rst] panics. *)
Definition resetGateway (b : board) (rst pwr : bool) (calls : list board_call)
  : run (list board_call * option error) :=
  let after_pwr : list board_call * option error :=
    if pwr then
      let '(calls, err) := pin_Set b PinPwr true calls in
      match err with
      | Some e => (calls, Some e)
      | None => waitGPIO b calls
      end
    else (calls, None) in
  let '(calls, err) := after_pwr in
  match err with
  | Some e => Done (calls, Some e)
  | None =>
      if negb rst then Panic NilPointerDereference else
      let '(calls, err) := pin_Set b PinRst true calls in
      match err with
      | Some e => Done (calls, Some e)
      | None =>
          let '(calls, err) := waitGPIO b calls in
          match err with
          | Some e => Done (calls, Some e)
          | None =>
              let '(calls, err) := pin_Set b PinRst false calls in
              match err with
              | Some e => Done (calls, Some e)
              | None =>
                  let '(calls, err) := waitGPIO b calls in
                  match err with
                  | Some e => Done (calls, Some e)
                  | None => Done (calls, None)
                  end
              end
          end
      end
  end.

(** ** Package gpio (gpioreset.go) *)

Module gpio.

(** What the package does to the outside: run a command, print a line,
    sleep 100 ms. *)
Inductive call : Type :=
| Command (program pin state : string)   (* exec.Command(program, "set", pin, state).Run() *)
| Println (line : string)
| Sleep.

(** [failure k] is the text of the error of [cmd.Run()] when the command is
    the [k]-th call made, [None] when it runs. *)
Definition waitGPIO (calls : list call) : list call := calls ++ [Sleep].

Definition pinctrlSet (failure : nat → option string) (pin state : string) (bookworm : bool)
    (calls : list call) : list call * option error :=
  let wrap (text : string) : error :=
    ErrNew ("error setting GPIO " +:+ pin +:+ " to " +:+ state +:+ ": " +:+ text) in
  if bookworm then
    let err := failure (length calls) in
    let calls := calls ++ [Command "pinctrl" pin state] in
    match err with
    | Some text => (calls, Some (wrap text))
    | None => (calls, None)
    end
  else
    let calls := calls ++ [Println "here using thisraspi-gpioe"] in
    let err := failure (length calls) in
    let calls := calls ++ [Command "raspi-gpio" pin state] in
    match err with
    | Some text => (calls, Some (wrap text))
    | None => (calls, None)
    end.

Definition initGPIO (failure : nat → option string) (resetPin powerPin : string)
    (bookworm : bool) (calls : list call) : list call * option error :=
  let '(calls, err) := pinctrlSet failure resetPin "op" bookworm calls in
  match err with
  | Some e => (calls, Some e)
  | None =>
      let calls := waitGPIO calls in
      if bool_decide (powerPin ≠ "") then
        let '(calls, err) := pinctrlSet failure powerPin "op" bookworm calls in
        match err with
        | Some e => (calls, Some e)
        | None => (waitGPIO calls, None)
        end
      else (calls, None)
  end.

Definition resetGPIO (failure : nat → option string) (resetPin : string)
    (bookworm : bool) (calls : list call) : list call * option error :=
  let '(calls, err) := pinctrlSet failure resetPin "dh" bookworm calls in
  match err with
  | Some e => (calls, Some e)
  | None =>
      let calls := waitGPIO calls in
      let '(calls, err) := pinctrlSet failure resetPin "dl" bookworm calls in
      match err with
      | Some e => (calls, Some e)
      | None => (waitGPIO calls, None)
      end
  end.

(** [Itoa] is strconv.Itoa; [resetPin] and [powerPin] are pointers, [None]
    the nil pointer. *)
Definition InitGateway (Itoa : Z → string) (failure : nat → option string)
    (resetPin powerPin : option Z) (bookworm : bool) (calls : list call)
  : run (list call * option error) :=
  match resetPin with
  | None => Panic NilPointerDereference
  | Some r =>
      let rst := Itoa r in
      let pwr := match powerPin with Some p => Itoa p | None => "" end in
      let '(calls, err) := initGPIO failure rst pwr bookworm calls in
      match err with
      | Some e => Done (calls, Some e)
      | None =>
          let '(calls, err) := resetGPIO failure rst bookworm calls in
          match err with
          | Some e => Done (calls, Some e)
          | None => Done (calls, None)
          end
      end
  end.

End gpio.

(** The commands among the calls of package gpio, as program, pin and
    state. *)
Definition gpio_commands (calls : list gpio.call) : list (string * string * string) :=
  omap (λ c, match c with
             | gpio.Command program pin state => Some (program, pin, state)
             | _ => None
             end) calls.

(** The commands of an InitGateway that runs to its end: the reset pin (and
    the power pin, if one is given) to output, then the reset pin high and
    low, all with the tool of the system. *)
Definition gpio_plan (rst pwr : string) (bookworm : bool) : list (string * string * string) :=
  let tool := if bookworm then "pinctrl" else "raspi-gpio" in
  [(tool, rst, "op")]
  ++ (if bool_decide (pwr ≠ "") then [(tool, pwr, "op")] else [])
  ++ [(tool, rst, "dh"); (tool, rst, "dl")].

(** The calls that carry out a list of commands: each command, announced by
    a printed line when the system is not bookworm, and a sleep after it. *)
Definition gpio_trace (plan : list (string * string * string)) (bookworm : bool)
  : list gpio.call :=
  flat_map (λ '(program, pin, state),
              (if bookworm then [] else [gpio.Println "here using thisraspi-gpioe"])
              ++ [gpio.Command program pin state; gpio.Sleep]) plan.

(** The calls of a resetGateway that runs to its end. *)
Definition reset_plan (pwr : bool) : list board_call :=
  (if pwr then [CallSet PinPwr true; CallWait] else [])
  ++ [CallSet PinRst true; CallWait; CallSet PinRst false; CallWait].

(** ** Fixtures of the further properties *)

(** A decoder of hexadecimal strings for the fixtures. *)
Definition hex_digit (a : Ascii.ascii) : option Z :=
  let n := Z.of_nat (Ascii.nat_of_ascii a) in
  if bool_decide (48 ≤ n ≤ 57)%Z then Some (n - 48)
  else if bool_decide (97 ≤ n ≤ 102)%Z then Some (n - 87)
  else if bool_decide (65 ≤ n ≤ 70)%Z then Some (n - 55)
  else None.

Fixpoint test_hex (s : string) : list byte * option error :=
  match s with
  | EmptyString => ([], None)
  | String a EmptyString => ([], Some (ErrNew "encoding/hex: odd length hex string"))
  | String a (String b rest) =>
      match hex_digit a, hex_digit b with
      | Some x, Some y =>
          let '(bytes, err) := test_hex rest in ((16 * x + y) :: bytes, err)
      | _, _ => ([], Some (ErrNew "encoding/hex: invalid byte"))
      end
  end.

(** Collaborators that refuse every input of another size. *)
Definition test_mic_sized (n : nat) (key : AES128Key) (msg : list byte)
  : mic4 * option error :=
  if bool_decide (length msg = n) then test_mic key msg
  else (Mic4 0 0 0 0, Some (ErrCollaborator 9)).

Definition test_encrypt_sized (key : AES128Key) (msg : list byte) : list byte * option error :=
  if bool_decide (length msg = 16%nat) then test_encrypt key msg
  else ([], Some (ErrCollaborator 9)).

Definition test_derive_sized (key : AES128Key) (joinEui devEui jn dn nid : list byte)
  : AES128Key * option error :=
  if bool_decide (length joinEui = 8%nat ∧ length devEui = 8%nat ∧ length jn = 3%nat
                  ∧ length dn = 2%nat ∧ nid = [1; 2; 3])
  then test_derive key joinEui devEui jn dn nid
  else ([], Some (ErrCollaborator 9)).

Definition fixture_abp_config : DeviceConfig.t :=
  DeviceConfig.mk "meter" "ABP" "" "000102030405060708090a0b0c0d0e0f"
    "0f0e0d0c0b0a09080706050403020100" "01020304" "/decoders/meter.js" "".

(** An OTAA configuration whose key fields have the right lengths and are
    not hexadecimal. *)
Definition fixture_nonhex_config : DeviceConfig.t :=
  DeviceConfig.mk "dragino" "OTAA" "zzzzzzzzzzzzzzzz" "" "" ""
    "/decoders/dragino.js" "not hexadecimal: thirty-two char".

(** A second configuration under the name of [fixture_otaa_config]. *)
Definition fixture_otaa_config_old : DeviceConfig.t :=
  DeviceConfig.mk "dragino" "OTAA" "1112131415161718" "" "" ""
    "/decoders/old.js" "ffeeddccbbaa99887766554433221100".

(** The devices newGateway loads from [fixture_otaa_config] and
    [fixture_abp_config]. *)
Definition fixture_otaa_loaded : Device :=
  mkDevice "dragino" "/decoders/dragino.js" zeroKey zeroKey fixture_key []
    [0x01; 0x02; 0x03; 0x04; 0x05; 0x06; 0x07; 0x08].

Definition fixture_abp_loaded : Device :=
  mkDevice "meter" "/decoders/meter.js" zeroKey fixture_key zeroKey
    [0x01; 0x02; 0x03; 0x04] [].

(** A device without a name that has the devEui of [fixture_device]. *)
Definition fixture_nameless_device : Device :=
  mkDevice "" "/decoders/sensor.js" [] [] fixture_key []
    [0x08; 0x07; 0x06; 0x05; 0x04; 0x03; 0x02; 0x01].

(** [fixture_device] after the join of [fixture_join_payload] with the
    clock readings 1 and 2, and the frame of that join. *)
Definition fixture_joined_device : Device :=
  set_appSKey (set_addr fixture_device [1; 2; 2; 237])
    [1; 236; 216; 1; 2; 3; 18; 52; 0; 1; 2; 3; 4; 5; 6; 7].

Definition fixture_join_accept : list byte :=
  [32; 160; 148; 121; 123; 122; 121; 149; 122; 122; 121; 120; 121; 46; 117; 221; 34].

(** A data uplink of two bytes, which [test_decoder] decodes. *)
Definition fixture_uplink_ok_payload : slice := Slice [0x40; 0x07] [].

(** strconv.Itoa on the two pins of the fixtures. *)
Definition test_Itoa (z : Z) : string :=
  if bool_decide (z = 17) then "17" else if bool_decide (z = 18) then "18" else "0".

(** A packet that reports 300 bytes in its array of 256. *)
Definition fixture_oversize_event : poll_event :=
  mkPollEvent false 1 (mkRxPkt 300 (replicate 256 0)) false [].

(** ** The join protocol and the packet dispatcher *)

Section Gateway.

(** Values of a reading, [interface{}] in the source. *)
Context {Val : Type}.

(** The collaborators of go.thethings.network/lorawan-stack/v3/pkg/crypto
    and pkg/crypto/cryptoservices, as Go results [(value, err)]. *)
Variable ComputeJoinRequestMIC : AES128Key → list byte → mic4 * option error.
Variable ComputeLegacyJoinAcceptMIC : AES128Key → list byte → mic4 * option error.
Variable EncryptJoinAccept : AES128Key → list byte → list byte * option error.

(** [cryptoservices.NewMemory(nil, &appKey).DeriveAppSKey(ctx, dev,
    MAC_V1_0_3, jn, dn, nid)] with [dev.Ids = {JoinEui, DevEui}]; the
    arguments are the key, JoinEui, DevEui, jn, dn, nid. *)
Variable DeriveAppSKey :
  AES128Key → list byte → list byte → list byte → list byte → list byte →
  AES128Key * option error.

(** The accepted draws of the source seeded with a given value. *)
Variable draws : Z → nat → Z.

(** [g.parseDataUplink(ctx, payload)]: defined outside the files at hand;
    it reads the gateway and the payload and returns [(name, readings, err)]. *)
Variable parseDataUplink : Gateway Val → slice → string * gomap Val * option error.

Definition validateMIC (appKey : AES128Key) (payload : slice) : run (option error) :=
  prefix ← reslice_to payload 19;
  let '(mic, err) := ComputeJoinRequestMIC appKey (elems prefix) in
  match err with
  | Some e => Done (Some e)
  | None =>
      rest ← reslice_from payload 19;
      if negb (bytes_Equal (elems rest) (mic_slice mic))
      then Done (Some InvalidMIC)
      else Done None
  end.

(** The loop [for _, device := range devices] of parseJoinRequestPacket over
    the devices in the order the range visits them.  [matched] is [None]
    while it points to the fresh [&Device{}] and [Some i] once it points to
    the [i]-th device visited. *)
Fixpoint match_devices (devices : list Device) (i : nat) (devEUIBE : list byte)
    (matched : option nat) : option nat :=
  match devices with
  | [] => matched
  | device :: rest =>
      match_devices rest (S i) devEUIBE
        (if bytes_Equal (devEui device) devEUIBE then Some i else matched)
  end.

(** [*matched] *)
Definition deref (devices : list Device) (matched : option nat) : Device :=
  match matched with
  | None => zeroDevice
  | Some i => default zeroDevice (devices !! i)
  end.

(** The result is the join request, the device pointer ([None] is nil,
    [Some i] the [i]-th device) and the error. *)
Definition parseJoinRequestPacket (payload : slice) (devices : list Device)
  : run (JoinRequest * option nat * option error) :=
  jEUI ← reslice payload 1 9;
  dEUI ← reslice payload 9 17;
  dNonce ← reslice payload 17 19;
  m ← reslice payload 19 23;
  let joinRequest := mkJoinRequest jEUI dEUI dNonce m in
  let devEUIBE := reverseByteArray (elems (devEUI joinRequest)) in
  let matched := match_devices devices 0 devEUIBE None in
  if bool_decide (name (deref devices matched) = "") then
    Done (zeroJoinRequest, None, Some UnknownDevice)
  else
    err ← validateMIC (AppKey (deref devices matched)) payload;
    match err with
    | Some e => Done (zeroJoinRequest, None, Some e)
    | None => Done (joinRequest, matched, None)
    end.

Definition generateKeys (d : Device) (devNonce joinEUI jn devEUI networkID : list byte)
  : run (AES128Key * option error) :=
  let devNonceBE := reverseByteArray devNonce in
  jn3 ← to_array 3 jn;
  dn2 ← to_array 2 devNonceBE;
  nid3 ← to_array 3 networkID;
  let '(appsKey, err) := DeriveAppSKey (AppKey d) joinEUI devEUI jn3 dn2 nid3 in
  match err with
  | Some e => Done ([], Some (KeyDerivationFailed e))
  | None => Done (appsKey, None)
  end.

(** [tNonce] and [tAddr] are the clock readings that seed the two
    generators.  The result is the device after the call and the Go result
    [(frame, err)]. *)
Definition GenerateJoinAccept (d : Device) (jr : JoinRequest) (tNonce tAddr : Z)
  : run (Device * (list byte * option error)) :=
  let jn := generateJoinNonce draws tNonce in
  let d := set_addr d (generateDevAddr draws tAddr) in
  let netIDLE := reverseByteArray netID in
  let jnLE := reverseByteArray jn in
  let dAddrLE := reverseByteArray (addr d) in
  let payload : list byte := [] in
  let payload := payload ++ [0x20] in
  let payload := payload ++ jnLE in
  let payload := payload ++ netIDLE in
  let payload := payload ++ dAddrLE in
  let payload := payload ++ [0x00] in
  let payload := payload ++ [0x01] in
  let '(resMIC, err) := ComputeLegacyJoinAcceptMIC (AppKey d) payload in
  match err with
  | Some e => Done (d, ([], Some e))
  | None =>
      let payload := drop 1 payload in
      let payload := payload ++ mic_slice resMIC in
      (* the error of EncryptJoinAccept is overwritten before it is read *)
      let '(enc, _) := EncryptJoinAccept (AppKey d) payload in
      let ja : list byte := [] in
      let ja := ja ++ [0x20] in
      let ja := ja ++ enc in
      '(appsKey, err) ← generateKeys d (elems (devNonce jr)) (elems (joinEUI jr)) jn
                          (elems (devEUI jr)) netID;
      match err with
      | Some e => Done (d, ([], Some e))
      | None => Done (set_appSKey d appsKey, (ja, None))
      end
  end.

(** [var cPayload [256]C.uchar; for i, b := range joinAccept { cPayload[i] = C.uchar(b) }] *)
Definition fill_cPayload (joinAccept : list byte) : run (list byte) :=
  if bool_decide (length joinAccept ≤ 256)%nat
  then Done (joinAccept ++ replicate (256 - length joinAccept) 0)
  else Panic IndexOutOfRange.

Definition handleJoin (g : Gateway Val) (payload : slice) (env : join_env)
  : run (Gateway Val * option error) :=
  '(jr, device, err) ← parseJoinRequestPacket payload (devices g);
  match err with
  | Some e => Done (g, Some e)
  | None =>
      match device with
      | None => Panic NilPointerDereference
      | Some i =>
          '(d, (joinAccept, err)) ←
            GenerateJoinAccept (deref (devices g) device) jr (nowNonce env) (nowAddr env);
          let g := mkGateway (lastReadings g) (<[i := d]> (devices g)) (sent g) in
          match err with
          | Some e => Done (g, Some e)
          | None =>
              cPayload ← fill_cPayload joinAccept;
              let txPkt :=
                mkTxPkt rx2Frequenecy 0 0 26 0x10 rx2Bandwidth rx2SF 0x01 true
                  (Z.of_nat (length joinAccept) mod 65536) cPayload in
              (* time.Sleep(joinRx2WindowSec * time.Second); g.mu.Lock() *)
              let g := mkGateway (lastReadings g) (devices g) (sent g ++ [txPkt]) in
              if bool_decide (send_status env ≠ 0)
              then Done (g, Some RadioTransmitFailed)
              else Done (g, None)
          end
      end
  end.

(** The function handlePacket adds to the workers, run to its end.  The
    logger calls are left out: they touch neither the cache, the devices nor
    the radio. *)
Definition handlePacket (g : Gateway Val) (payload : slice) (env : join_env)
  : run (Gateway Val) :=
  mhdr ← index payload 0;
  if bool_decide (mhdr = 0x0) then
    '(g, err) ← handleJoin g payload env;
    Done g
  else if bool_decide (mhdr = 0x40) then
    let '(name, readings, err) := parseDataUplink g payload in
    (* a non-nil err is logged, and the function goes on *)
    readings ← updateReadings (lastReadings g) name readings;
    Done (mkGateway readings (devices g) (sent g))
  else
    Done g.

(** * Properties *)

(** ** Slices and byte order *)

Lemma reslice_Done (s : slice) (lo hi : nat) :
  (lo ≤ hi)%nat → (hi ≤ cap s)%nat →
  reslice s lo hi = Done (Slice (take (hi - lo) (drop lo (backing s))) (drop hi (backing s))).
Proof.
  intros Hlo Hhi. unfold reslice.
  rewrite !bool_decide_eq_true_2 by assumption. reflexivity.
Qed.

Lemma reslice_Panic (s : slice) (lo hi : nat) :
  (cap s < hi)%nat → reslice s lo hi = Panic SliceBoundsOutOfRange.
Proof.
  intros Hhi. unfold reslice.
  rewrite (bool_decide_eq_false_2 (hi ≤ cap s)%nat) by lia.
  rewrite andb_false_r. reflexivity.
Qed.

Lemma reslice_len (s t : slice) (lo hi : nat) :
  reslice s lo hi = Done t → len t = (hi - lo)%nat.
Proof.
  unfold reslice. destruct (bool_decide (lo ≤ hi)%nat) eqn:Hlo; [|discriminate].
  destruct (bool_decide (hi ≤ cap s)%nat) eqn:Hhi; [|discriminate].
  apply bool_decide_eq_true_1 in Hlo, Hhi. simpl. intros [= <-].
  unfold len, cap, backing in *. simpl.
  rewrite length_take, length_drop, length_app. lia.
Qed.

(** Within the length of the slice, re-slicing reads the visible elements. *)
Lemma reslice_within (s : slice) (lo hi : nat) :
  (lo ≤ hi)%nat → (hi ≤ len s)%nat →
  ∃ t, reslice s lo hi = Done t ∧ elems t = take (hi - lo) (drop lo (elems s)).
Proof.
  intros Hlo Hhi. eexists. split.
  - apply reslice_Done; [assumption|]. unfold cap, len in *. lia.
  - simpl. unfold backing, len in *.
    rewrite drop_app_le by lia. rewrite take_app_le; [reflexivity|].
    rewrite length_drop. lia.
Qed.

Lemma reverse_loop_spec (arr : list byte) :
  ∀ (todo i : nat) (acc : list byte),
    (i + todo = length arr)%nat →
    length acc = length arr →
    take i acc = take i (reverse arr) →
    reverse_loop todo i (Z.of_nat (length arr) - 1 - Z.of_nat i) arr acc = reverse arr.
Proof.
  induction todo as [|todo IH]; intros i acc Hi Hlen Htake.
  - simpl. rewrite Nat.add_0_r in Hi. subst i.
    rewrite <- Hlen in Htake at 1. rewrite firstn_all in Htake.
    rewrite Htake. rewrite take_ge; [reflexivity|]. rewrite length_reverse. lia.
  - simpl.
    replace (Z.of_nat (length arr) - 1 - Z.of_nat i - 1)
      with (Z.of_nat (length arr) - 1 - Z.of_nat (S i)) by lia.
    apply IH; [lia | rewrite length_insert; assumption |].
    assert (Hj : Z.to_nat (Z.of_nat (length arr) - 1 - Z.of_nat i) = (length arr - S i)%nat) by lia.
    rewrite Hj.
    assert (Hrev : reverse arr !! i = arr !! (length arr - S i)%nat)
      by (apply reverse_lookup; lia).
    destruct (arr !! (length arr - S i)%nat) as [b|] eqn:Hb.
    2:{ apply lookup_ge_None in Hb. lia. }
    simpl.
    rewrite (take_S_r (reverse arr) i b) by assumption.
    rewrite (take_S_r (<[i:=b]> acc) i b) by (apply list_lookup_insert_eq; lia).
    rewrite take_insert_ge by lia. rewrite Htake. reflexivity.
Qed.

(** reverseByteArray returns the elements in the opposite order. *)
Lemma reverseByteArray_reverse (arr : list byte) : reverseByteArray arr = reverse arr.
Proof.
  unfold reverseByteArray.
  replace (Z.of_nat (length arr) - 1) with (Z.of_nat (length arr) - 1 - Z.of_nat 0) by lia.
  apply reverse_loop_spec; [lia | apply length_replicate | reflexivity].
Qed.

Lemma reverseByteArray_involutive (arr : list byte) :
  reverseByteArray (reverseByteArray arr) = arr.
Proof. rewrite !reverseByteArray_reverse. apply reverse_involutive. Qed.

Lemma reverseByteArray_length (arr : list byte) :
  length (reverseByteArray arr) = length arr.
Proof. rewrite reverseByteArray_reverse. apply length_reverse. Qed.


(** ** The poll loop *)

Lemma copy_payload_length (packet : RxPkt) :
  ∀ (todo i : nat) (payload r : list byte),
    copy_payload todo i packet payload = Done r →
    length r = (length payload + todo)%nat.
Proof.
  induction todo as [|todo IH]; intros i payload r H; simpl in H.
  - injection H as <-. lia.
  - destruct (rx_payload packet !! i) as [b|]; [|discriminate].
    apply IH in H. rewrite length_app in H. simpl in H. lia.
Qed.

Lemma receiveIteration_Dispatch (ev : poll_event) (payload : slice) :
  receiveIteration ev = Dispatch payload →
  rx_size (packet ev) ≠ 0%nat ∧ len payload = rx_size (packet ev).
Proof.
  unfold receiveIteration.
  destruct (done_at_top ev); [discriminate|].
  case_bool_decide; [destruct (done_in_wait ev); discriminate|].
  case_bool_decide; [|discriminate].
  case_bool_decide as Hsize; [discriminate|].
  destruct (copy_payload _ _ _ _) as [r|p] eqn:Hcopy; [|discriminate].
  intros [= <-]. split; [assumption|].
  apply copy_payload_length in Hcopy. unfold len. simpl in *. lia.
Qed.

Lemma index_0_nonempty (s : slice) :
  (0 < len s)%nat → ∃ mhdr, index s 0 = Done mhdr.
Proof.
  unfold len, index. destruct (elems s) as [|b l]; simpl; [lia|]. eauto.
Qed.

(** C10: every payload the poll loop hands to handlePacket holds as many
    bytes as the non-zero size reported for its packet, so it is not empty
    and the read of the MHDR, payload[0], is within bounds. *)
Theorem receivePackets_payload_nonempty (events : list poll_event) :
  Forall (λ payload : slice,
            (∃ ev, ev ∈ events ∧ rx_size (packet ev) ≠ 0%nat ∧
                   len payload = rx_size (packet ev)) ∧
            (0 < len payload)%nat ∧
            ∃ mhdr, index payload 0 = Done mhdr)
         (receivePackets events).1.
Proof.
  induction events as [|ev rest IH]; simpl; [constructor|].
  destruct (receiveIteration ev) as [| |payload|p] eqn:Hit; simpl; try constructor.
  - eapply Forall_impl; [exact IH|]. simpl.
    intros s [(ev' & Hin & H1 & H2) H3]. split; [|exact H3].
    exists ev'. split; [right; exact Hin | auto].
  - destruct (receivePackets rest) as [tasks e]. simpl in *.
    apply receiveIteration_Dispatch in Hit as [Hne Hlen].
    constructor.
    + split; [exists ev; split; [left | auto] |].
      split; [lia | apply index_0_nonempty; lia].
    + eapply Forall_impl; [exact IH|]. simpl.
      intros s [(ev' & Hin & H1 & H2) H3]. split; [|exact H3].
      exists ev'. split; [right; exact Hin | auto].
Qed.

(** ** Configuration validation *)

Lemma validateOTAAAttributes_valid (conf : DeviceConfig.t) (path : string) :
  (validateOTAAAttributes conf path).2 = None ↔
  String.length (DeviceConfig.DevEUI conf) = 16%nat ∧
  String.length (DeviceConfig.AppKey conf) = 32%nat.
Proof.
  unfold validateOTAAAttributes, invalid, valid.
  repeat case_bool_decide; simpl; split;
    try discriminate; try (intros _; split; assumption || (by apply dec_stable));
    intros [Hd Ha]; try congruence;
    match goal with
    | H : ?s = "" , L : String.length ?s = _ |- _ => rewrite H in L; discriminate
    | _ => idtac
    end.
Qed.

Lemma validateABPAttributes_valid (conf : DeviceConfig.t) (path : string) :
  (validateABPAttributes conf path).2 = None ↔
  String.length (DeviceConfig.AppSKey conf) = 32%nat ∧
  String.length (DeviceConfig.NwkSKey conf) = 32%nat ∧
  String.length (DeviceConfig.DevAddr conf) = 8%nat.
Proof.
  unfold validateABPAttributes, invalid, valid.
  repeat case_bool_decide; simpl; split;
    try discriminate;
    try (intros _; repeat split; assumption || (by apply dec_stable));
    intros (Ha & Hn & Hd); try congruence;
    match goal with
    | H : ?s = "" , L : String.length ?s = _ |- _ => rewrite H in L; discriminate
    | _ => idtac
    end.
Qed.

(** Only the first device of the list decides the result: every arm of the
    loop body returns. *)
Lemma Validate_first_device (d : DeviceConfig.t) (rest : list DeviceConfig.t) (path : string) :
  Validate (mkConfig (d :: rest)) path = Validate (mkConfig [d]) path.
Proof.
  unfold Validate. simpl. unfold Validate_body.
  repeat (case_bool_decide; simpl; try reflexivity).
Qed.

(** The first device is checked as the specification asks. *)
Lemma Validate_head (d : DeviceConfig.t) (rest : list DeviceConfig.t) (path : string) :
  (Validate (mkConfig (d :: rest)) path).2 = None ↔ spec_well_sized d.
Proof.
  unfold Validate, spec_well_sized. simpl. unfold Validate_body.
  case_bool_decide as Hdec; simpl.
  { split; [discriminate | intros [H _]; contradiction]. }
  case_bool_decide as Habp; simpl.
  { rewrite validateABPAttributes_valid. split.
    - intros (H1 & H2 & H3). split; [assumption|]. left. auto.
    - intros [_ [(_ & H1 & H2 & H3) | ([Ho | Ho] & _)]]; [auto | |];
        rewrite Habp in Ho; discriminate. }
  destruct (bool_decide (DeviceConfig.JoinType d = "OTAA")
            || bool_decide (DeviceConfig.JoinType d = "")) eqn:Hotaa; simpl.
  { rewrite validateOTAAAttributes_valid. split.
    - intros [H1 H2]. split; [assumption|]. right.
      apply orb_true_iff in Hotaa as [Ho | Ho]; apply bool_decide_eq_true_1 in Ho; auto.
    - intros [_ [(Ha & _) | (_ & H1 & H2)]]; [contradiction | auto]. }
  apply orb_false_iff in Hotaa as [Ho He].
  apply bool_decide_eq_false_1 in Ho, He.
  split; [discriminate|].
  intros [_ [(Ha & _) | ([Hj | Hj] & _)]]; contradiction.
Qed.

(** C6 (the code departs from it): a configuration whose first device is
    well-sized is accepted whatever devices follow, so a missing or
    mis-sized field of a later device is not rejected. *)
Theorem Validate_ignores_later_devices
    (d : DeviceConfig.t) (rest : list DeviceConfig.t) (path : string) :
  spec_well_sized d → Validate (mkConfig (d :: rest)) path = valid.
Proof.
  intros Hd. apply (Validate_head d rest path) in Hd.
  unfold Validate in *. simpl in *. unfold Validate_body in *.
  unfold validateABPAttributes, validateOTAAAttributes, invalid, valid in *.
  repeat (case_bool_decide; simpl in *; try discriminate; try reflexivity).
  all: destruct (bool_decide (DeviceConfig.JoinType d = "OTAA")
                 || bool_decide (DeviceConfig.JoinType d = "")); simpl in *;
    repeat (case_bool_decide; simpl in *; try discriminate; try reflexivity).
Qed.

(** ** Generated bytes *)

Lemma rand_Intn_255 (seed : Z) (k : nat) (source : Z → nat → Z) :
  0 ≤ to_byte (rand_Intn source seed k 255) < 255.
Proof.
  unfold to_byte, rand_Intn.
  pose proof (Z.mod_pos_bound (source seed k) 255 ltac:(lia)).
  rewrite Z.mod_small by lia. lia.
Qed.

(** C9 (the code departs from it): the device address is 4 bytes, the
    first two fixed to 1 and 2, and the join nonce is 3 bytes, but every
    generated byte lies in 0..254: the value 255 is never produced, so the
    bytes do not range over the full byte range. *)
Theorem generated_bytes_below_255 (source : Z → nat → Z) (now : Z) :
  (∃ a b, generateDevAddr source now = [1; 2; a; b] ∧
          0 ≤ a < 255 ∧ 0 ≤ b < 255) ∧
  (∃ x y z, generateJoinNonce source now = [x; y; z] ∧
            0 ≤ x < 255 ∧ 0 ≤ y < 255 ∧ 0 ≤ z < 255).
Proof.
  split.
  - eexists _, _. split; [reflexivity|]. split; apply rand_Intn_255.
  - eexists _, _, _. split; [reflexivity|]. repeat split; apply rand_Intn_255.
Qed.

(** ** The readings cache *)

Lemma assign_entries_Some {V : Type} (kvs : list (string * V)) :
  ∀ m : gmap string V,
    NoDup kvs.*1 →
    assign_entries kvs (Some m) = Done (Some (list_to_map kvs ∪ m)).
Proof.
  induction kvs as [|[k v] kvs IH]; intros m Hnd; simpl.
  - rewrite (left_id_L ∅ (∪)). reflexivity.
  - simpl in Hnd. apply NoDup_cons in Hnd as [Hk Hnd].
    rewrite IH by assumption. do 2 f_equal.
    rewrite <- insert_union_l. symmetry.
    apply insert_union_r. apply not_elem_of_list_to_map_1. assumption.
Qed.

(** The loop over the new readings is the union that prefers the new
    value of a key. *)
Lemma assign_entries_union {V : Type} (new old : gmap string V) :
  assign_entries (map_entries (Some new)) (Some old) = Done (Some (new ∪ old)).
Proof.
  simpl. rewrite assign_entries_Some by apply NoDup_fst_map_to_list.
  rewrite list_to_map_to_list. reflexivity.
Qed.

Lemma updateReadings_absent {V : Type} (lr : gmap string (iface V))
    (dev : string) (new : gomap V) :
  lr !! dev = None →
  updateReadings lr dev new = Done (<[dev := IfaceMap new]> lr).
Proof. intros H. unfold updateReadings. rewrite H. reflexivity. Qed.

Lemma updateReadings_merge {V : Type} (lr : gmap string (iface V))
    (dev : string) (new old : gmap string V) :
  lr !! dev = Some (IfaceMap (Some old)) →
  updateReadings lr dev (Some new) = Done (<[dev := IfaceMap (Some (new ∪ old))]> lr).
Proof.
  intros H. unfold updateReadings. rewrite H.
  rewrite assign_entries_union. reflexivity.
Qed.

Lemma updateReadings_merge_nil {V : Type} (lr : gmap string (iface V))
    (dev : string) (old : gmap string V) :
  lr !! dev = Some (IfaceMap (Some old)) →
  updateReadings lr dev None = Done lr.
Proof.
  intros H. unfold updateReadings. rewrite H. simpl.
  rewrite insert_id by assumption. reflexivity.
Qed.

(** The three merges the specification lists, from a cache without the
    device. *)
Lemma updateReadings_a_then_b :
  updateReadings (∅ : gmap string (iface Z)) "dev" (Some {[ "a" := 1 ]})
    ≫= (λ lr, updateReadings lr "dev" (Some {[ "b" := 2 ]}))
  = Done {[ "dev" := IfaceMap (Some (<[ "a" := 1 ]> {[ "b" := 2 ]})) ]}.
Proof.
  rewrite updateReadings_absent by apply lookup_empty. simpl.
  erewrite updateReadings_merge by apply lookup_insert_eq.
  rewrite insert_insert_eq. reflexivity.
Qed.

Lemma updateReadings_twice {V : Type} (dev : string) (new : gmap string V) :
  updateReadings (∅ : gmap string (iface V)) dev (Some new)
    ≫= (λ lr, updateReadings lr dev (Some new))
  = Done {[ dev := IfaceMap (Some new) ]}.
Proof.
  rewrite updateReadings_absent by apply lookup_empty. simpl.
  erewrite updateReadings_merge by apply lookup_insert_eq.
  rewrite insert_insert_eq, (idemp_L (∪)). reflexivity.
Qed.

Lemma updateReadings_overwrite {V : Type} (dev key : string) (v1 v2 : V) :
  updateReadings (∅ : gmap string (iface V)) dev (Some {[ key := v1 ]})
    ≫= (λ lr, updateReadings lr dev (Some {[ key := v2 ]}))
  = Done {[ dev := IfaceMap (Some {[ key := v2 ]}) ]}.
Proof.
  rewrite updateReadings_absent by apply lookup_empty. simpl.
  erewrite updateReadings_merge by apply lookup_insert_eq.
  rewrite insert_insert_eq.
  rewrite <- insert_union_singleton_l, insert_singleton_eq. reflexivity.
Qed.

Lemma assign_entries_nil {V : Type} (kvs : list (string * V)) :
  kvs ≠ [] → assign_entries kvs None = Panic AssignToNilMap.
Proof. destruct kvs as [|[k v] kvs]; [congruence | reflexivity]. Qed.

(** C8 (the code departs from it): when the entry of the device is the nil
    mapping, which updateReadings itself stores when it is called with nil
    readings for an absent device, merging any non-empty readings panics
    instead of yielding the merged entry. *)
Theorem updateReadings_nil_entry_panics {V : Type} (lr : gmap string (iface V))
    (dev : string) (new : gmap string V) :
  lr !! dev = Some (IfaceMap None) →
  new ≠ ∅ →
  updateReadings lr dev (Some new) = Panic AssignToNilMap.
Proof.
  intros H Hne. unfold updateReadings. rewrite H.
  rewrite assign_entries_nil; [reflexivity|].
  simpl. intros Hl. apply map_to_list_empty_iff in Hl. contradiction.
Qed.

(** ** Parsing a join request *)

Lemma bind_Done {A B : Type} (a : A) (f : A → run B) : Done a ≫= f = f a.
Proof. reflexivity. Qed.

(** The join request read from a payload of capacity 23 or more. *)
Lemma parseJoinRequestPacket_fields (payload : slice) (devs : list Device) :
  (23 ≤ cap payload)%nat →
  parseJoinRequestPacket payload devs =
    let joinRequest := wire_request payload in
    let matched :=
      match_devices devs 0 (reverse (elems (devEUI joinRequest))) None in
    if bool_decide (name (deref devs matched) = "") then
      Done (zeroJoinRequest, None, Some UnknownDevice)
    else
      err ← validateMIC (AppKey (deref devs matched)) payload;
      match err with
      | Some e => Done (zeroJoinRequest, None, Some e)
      | None => Done (joinRequest, matched, None)
      end.
Proof.
  intros Hcap. unfold parseJoinRequestPacket, wire_request.
  rewrite !reslice_Done by lia. rewrite !bind_Done. simpl.
  rewrite reverseByteArray_reverse. reflexivity.
Qed.

Lemma parseJoinRequestPacket_short (payload : slice) (devs : list Device) :
  (cap payload < 23)%nat →
  parseJoinRequestPacket payload devs = Panic SliceBoundsOutOfRange.
Proof.
  intros Hcap. unfold parseJoinRequestPacket.
  destruct (decide (cap payload < 9)%nat).
  { rewrite (reslice_Panic payload 1 9) by lia. reflexivity. }
  rewrite (reslice_Done payload 1 9) by lia. rewrite bind_Done.
  destruct (decide (cap payload < 17)%nat).
  { rewrite (reslice_Panic payload 9 17) by lia. reflexivity. }
  rewrite (reslice_Done payload 9 17) by lia. rewrite bind_Done.
  destruct (decide (cap payload < 19)%nat).
  { rewrite (reslice_Panic payload 17 19) by lia. reflexivity. }
  rewrite (reslice_Done payload 17 19) by lia. rewrite bind_Done.
  rewrite (reslice_Panic payload 19 23) by lia. reflexivity.
Qed.

(** On a payload of 23 bytes or more, a parse that succeeds has read the
    four fields at their fixed offsets. *)
Lemma parseJoinRequestPacket_layout (payload : slice) (devs : list Device)
    (jr : JoinRequest) (device : option nat) :
  (23 ≤ len payload)%nat →
  parseJoinRequestPacket payload devs = Done (jr, device, None) →
  elems (joinEUI jr) = take 8 (drop 1 (elems payload)) ∧
  elems (devEUI jr) = take 8 (drop 9 (elems payload)) ∧
  elems (devNonce jr) = take 2 (drop 17 (elems payload)) ∧
  elems (mic jr) = take 4 (drop 19 (elems payload)).
Proof.
  intros Hlen.
  rewrite parseJoinRequestPacket_fields by (unfold cap, len in *; lia). cbv zeta.
  case_bool_decide; [discriminate|].
  destruct (validateMIC _ payload) as [[e|]|p]; simpl; try discriminate.
  intros [= <- _]. unfold wire_request, backing, len in *. simpl.
  rewrite !drop_app_le by lia.
  rewrite !take_app_le by (rewrite length_drop; lia). auto.
Qed.

Lemma match_devices_unmatched (eui : list byte) (devs : list Device) :
  ∀ (i : nat) (matched : option nat),
    Forall (λ d, devEui d ≠ eui) devs →
    match_devices devs i eui matched = matched.
Proof.
  induction devs as [|d devs IH]; intros i matched Hall; simpl; [reflexivity|].
  apply Forall_cons in Hall as [Hd Hall].
  unfold bytes_Equal. rewrite bool_decide_eq_false_2 by assumption.
  apply IH. assumption.
Qed.

(** A match points to a visited device with that devEui. *)
Lemma match_devices_Some (eui : list byte) (devs : list Device) :
  ∀ (i j : nat),
    match_devices devs i eui None = Some j →
    ∃ d, devs !! (j - i)%nat = Some d ∧ devEui d = eui ∧ (i ≤ j)%nat.
Proof.
  assert (Hgen : ∀ (i j : nat) (matched : option nat),
    match_devices devs i eui matched = Some j →
    matched = Some j ∨
    ∃ d, devs !! (j - i)%nat = Some d ∧ devEui d = eui ∧ (i ≤ j)%nat).
  { induction devs as [|d devs IH]; intros i j matched H; simpl in H; [auto|].
    apply IH in H as [H | (d' & Hl & He & Hi)].
    - unfold bytes_Equal in H. case_bool_decide as Heq; [|auto].
      injection H as <-. right. exists d. rewrite Nat.sub_diag. auto.
    - right. exists d'. replace (j - i)%nat with (S (j - S i)) by lia. auto with lia. }
  intros i j H. apply Hgen in H as [H | H]; [discriminate | exact H].
Qed.

Lemma handleJoin_rejected (g : Gateway Val) (payload : slice) (env : join_env)
    (jr : JoinRequest) (device : option nat) (e : error) :
  parseJoinRequestPacket payload (devices g) = Done (jr, device, Some e) →
  handleJoin g payload env = Done (g, Some e).
Proof. intros H. unfold handleJoin. rewrite H. reflexivity. Qed.

(** C2 (the code departs from it): a payload whose capacity is below 23,
    hence shorter than 23 bytes, is not rejected with an error: the parse
    panics on a slice expression, and so does the dispatch of a packet
    whose MHDR is 0x00. *)
Theorem parseJoinRequestPacket_short_panics
    (g : Gateway Val) (payload : slice) (env : join_env) :
  (cap payload < 23)%nat →
  index payload 0 = Done 0 →
  parseJoinRequestPacket payload (devices g) = Panic SliceBoundsOutOfRange ∧
  handlePacket g payload env = Panic SliceBoundsOutOfRange.
Proof.
  intros Hcap Hmhdr. split; [apply parseJoinRequestPacket_short; assumption|].
  unfold handlePacket. rewrite Hmhdr, bind_Done. simpl.
  unfold handleJoin. rewrite parseJoinRequestPacket_short by assumption. reflexivity.
Qed.

(** C7: a join request whose reversed wire devEUI is the devEui of no
    device ends with the unknown-device error and leaves the cache, the
    devices and the radio as they were. *)
Theorem handleJoin_unknown_device (g : Gateway Val) (payload : slice) (env : join_env) :
  (23 ≤ cap payload)%nat →
  Forall (λ d, devEui d ≠ reverse (take 8 (drop 9 (backing payload)))) (devices g) →
  handleJoin g payload env = Done (g, Some UnknownDevice) ∧
  (index payload 0 = Done 0 → handlePacket g payload env = Done g).
Proof.
  intros Hcap Hall.
  assert (Hjoin : handleJoin g payload env = Done (g, Some UnknownDevice)).
  { apply (handleJoin_rejected g payload env zeroJoinRequest None).
    rewrite parseJoinRequestPacket_fields by assumption. simpl.
    rewrite match_devices_unmatched by assumption. reflexivity. }
  split; [exact Hjoin|].
  intros Hmhdr. unfold handlePacket. rewrite Hmhdr, bind_Done. simpl.
  rewrite Hjoin. reflexivity.
Qed.

(** ** Validating the MIC *)

(** validateMIC on a payload of 19 bytes or more. *)
Lemma validateMIC_unfold (appKey : AES128Key) (payload : slice) :
  (19 ≤ len payload)%nat →
  validateMIC appKey payload =
    match ComputeJoinRequestMIC appKey (take 19 (elems payload)) with
    | (_, Some e) => Done (Some e)
    | (computed, None) =>
        if bytes_Equal (drop 19 (elems payload)) (mic_slice computed)
        then Done None
        else Done (Some InvalidMIC)
    end.
Proof.
  intros Hlen. unfold validateMIC, reslice_to, reslice_from.
  destruct (reslice_within payload 0 19) as (prefix & -> & Hprefix); [lia | lia |].
  destruct (reslice_within payload 19 (len payload)) as (rest & Hrest & Hrest_elems);
    [lia | lia |].
  rewrite bind_Done, Hprefix.
  change (take (19 - 0) (drop 0 (elems payload))) with (take 19 (elems payload)).
  destruct (ComputeJoinRequestMIC appKey (take 19 (elems payload))) as [computed [e|]];
    [reflexivity|].
  rewrite Hrest, bind_Done, Hrest_elems.
  rewrite take_ge by (rewrite length_drop; unfold len; lia).
  destruct (bytes_Equal _ _); reflexivity.
Qed.

(** C4 (as amended): on a payload of 23 bytes or more the MIC is computed
    over bytes [0:19) with the AppKey, and validation succeeds exactly when
    the computation succeeds and the computed MIC equals all the bytes from
    19 to the end of the payload; these are bytes [19:23) for a payload of
    23 bytes, and a longer payload never validates.  On a mismatch the
    result is InvalidMIC, and a join whose matched device fails validation
    returns that error with the gateway unchanged. *)
Theorem validateMIC_compares_tail (appKey : AES128Key) (payload : slice) :
  (23 ≤ len payload)%nat →
  let computed := ComputeJoinRequestMIC appKey (take 19 (elems payload)) in
  (validateMIC appKey payload = Done None ↔
     computed.2 = None ∧ drop 19 (elems payload) = mic_slice computed.1) ∧
  (len payload = 23%nat →
     drop 19 (elems payload) = take 4 (drop 19 (elems payload))) ∧
  ((23 < len payload)%nat → validateMIC appKey payload ≠ Done None) ∧
  (computed.2 = None → drop 19 (elems payload) ≠ mic_slice computed.1 →
     validateMIC appKey payload = Done (Some InvalidMIC)) ∧
  (∀ (g : Gateway Val) (env : join_env) (i : nat) (d : Device) (e : error),
     match_devices (devices g) 0 (reverse (take 8 (drop 9 (elems payload)))) None = Some i →
     devices g !! i = Some d →
     name d ≠ "" →
     AppKey d = appKey →
     validateMIC appKey payload = Done (Some e) →
     handleJoin g payload env = Done (g, Some e)).
Proof.
  intros Hlen computed.
  assert (Hiff : validateMIC appKey payload = Done None ↔
     computed.2 = None ∧ drop 19 (elems payload) = mic_slice computed.1).
  { rewrite validateMIC_unfold by lia. subst computed.
    destruct (ComputeJoinRequestMIC appKey (take 19 (elems payload))) as [c [e|]]; simpl.
    - split; [discriminate | intros [? _]; discriminate].
    - unfold bytes_Equal. case_bool_decide; split; try discriminate; auto.
      intros [_ ?]. contradiction. }
  split; [exact Hiff|]. split; [|split; [|split]].
  - intros H23. rewrite take_ge; [reflexivity|].
    rewrite length_drop. unfold len in H23. lia.
  - intros H23 Hok. apply Hiff in Hok as [_ Heq].
    apply (f_equal length) in Heq. rewrite length_drop in Heq.
    unfold len in H23. simpl in Heq. lia.
  - intros Hc Hne. rewrite validateMIC_unfold by lia. subst computed.
    destruct (ComputeJoinRequestMIC appKey (take 19 (elems payload))) as [c [e|]];
      simpl in *; [discriminate|].
    unfold bytes_Equal. rewrite bool_decide_eq_false_2 by assumption. reflexivity.
  - intros g env i d e Hm Hd Hname Hkey Hv.
    apply (handleJoin_rejected g payload env zeroJoinRequest None).
    rewrite parseJoinRequestPacket_fields by (unfold cap, len in *; lia).
    simpl. unfold backing. rewrite drop_app_le by (unfold len in Hlen; lia).
    rewrite take_app_le by (rewrite length_drop; unfold len in Hlen; lia).
    rewrite Hm. simpl. rewrite Hd. simpl.
    rewrite bool_decide_eq_false_2 by assumption.
    rewrite Hkey, Hv. reflexivity.
Qed.

(** ** Generating a join accept *)

Lemma generateKeys_unfold (d : Device) (dn je de : list byte) (tNonce : Z) :
  generateKeys d dn je (generateJoinNonce draws tNonce) de netID =
    if bool_decide (2 ≤ length dn)%nat then
      match DeriveAppSKey (AppKey d) je de (generateJoinNonce draws tNonce)
              (take 2 (reverse dn)) netID with
      | (_, Some e) => Done ([], Some (KeyDerivationFailed e))
      | (appsKey, None) => Done (appsKey, None)
      end
    else Panic SliceToArrayTooShort.
Proof.
  unfold generateKeys, to_array.
  rewrite reverseByteArray_reverse, length_reverse.
  change (bool_decide (3 ≤ length (generateJoinNonce draws tNonce))%nat) with true.
  change (bool_decide (3 ≤ length netID)%nat) with true.
  cbv iota. rewrite bind_Done.
  case_bool_decide; [|reflexivity].
  rewrite !bind_Done.
  change (take 3 netID) with netID.
  change (take 3 (generateJoinNonce draws tNonce)) with (generateJoinNonce draws tNonce).
  destruct (DeriveAppSKey _ _ _ _ _ _) as [k [e|]]; reflexivity.
Qed.

(** GenerateJoinAccept, step by step: the address is assigned first, the
    MIC is computed over the plaintext, the encryption result is used
    whatever its error, and the session key is assigned last. *)
Lemma GenerateJoinAccept_unfold (d : Device) (jr : JoinRequest) (tNonce tAddr : Z) :
  GenerateJoinAccept d jr tNonce tAddr =
    let jn := generateJoinNonce draws tNonce in
    let d1 := set_addr d (generateDevAddr draws tAddr) in
    let plaintext := accept_plaintext jn (generateDevAddr draws tAddr) in
    match ComputeLegacyJoinAcceptMIC (AppKey d) plaintext with
    | (_, Some e) => Done (d1, ([], Some e))
    | (resMIC, None) =>
        let ja := 0x20 :: (EncryptJoinAccept (AppKey d)
                             (drop 1 plaintext ++ mic_slice resMIC)).1 in
        if bool_decide (2 ≤ len (devNonce jr))%nat then
          match DeriveAppSKey (AppKey d) (elems (joinEUI jr)) (elems (devEUI jr)) jn
                  (take 2 (reverse (elems (devNonce jr)))) netID with
          | (_, Some e) => Done (d1, ([], Some (KeyDerivationFailed e)))
          | (appsKey, None) => Done (set_appSKey d1 appsKey, (ja, None))
          end
        else Panic SliceToArrayTooShort
    end.
Proof.
  unfold GenerateJoinAccept. rewrite generateKeys_unfold.
  rewrite !reverseByteArray_reverse. cbv zeta.
  change (AppKey (set_addr d (generateDevAddr draws tAddr))) with (AppKey d).
  change (addr (set_addr d (generateDevAddr draws tAddr))) with (generateDevAddr draws tAddr).
  change ([] ++ [32] ++ reverse (generateJoinNonce draws tNonce) ++ reverse netID
            ++ reverse (generateDevAddr draws tAddr) ++ [0] ++ [1])
    with (accept_plaintext (generateJoinNonce draws tNonce) (generateDevAddr draws tAddr)).
  rewrite <- !(assoc_L (++)).
  change ([] ++ [32] ++ reverse (generateJoinNonce draws tNonce) ++ reverse netID
            ++ reverse (generateDevAddr draws tAddr) ++ [0] ++ [1])
    with (accept_plaintext (generateJoinNonce draws tNonce) (generateDevAddr draws tAddr)).
  destruct (ComputeLegacyJoinAcceptMIC _ _) as [resMIC [e|]]; [reflexivity|].
  destruct (EncryptJoinAccept _ _) as [enc encErr]. unfold len.
  case_bool_decide; [|reflexivity].
  destruct (DeriveAppSKey _ _ _ _ _ _) as [k [e|]]; reflexivity.
Qed.

Lemma GenerateJoinAccept_success_inv (d : Device) (jr : JoinRequest) (tNonce tAddr : Z)
    (d' : Device) (ja : list byte) :
  GenerateJoinAccept d jr tNonce tAddr = Done (d', (ja, None)) →
  ∃ resMIC,
    ComputeLegacyJoinAcceptMIC (AppKey d)
      (accept_plaintext (generateJoinNonce draws tNonce) (generateDevAddr draws tAddr))
      = (resMIC, None) ∧
    ja = 0x20 :: (EncryptJoinAccept (AppKey d)
                    (drop 1 (accept_plaintext (generateJoinNonce draws tNonce)
                                              (generateDevAddr draws tAddr))
                     ++ mic_slice resMIC)).1 ∧
    DeriveAppSKey (AppKey d) (elems (joinEUI jr)) (elems (devEUI jr))
      (generateJoinNonce draws tNonce)
      (take 2 (reverse (elems (devNonce jr)))) netID = (appSKey d', None) ∧
    d' = set_appSKey (set_addr d (generateDevAddr draws tAddr)) (appSKey d').
Proof.
  rewrite GenerateJoinAccept_unfold. cbv zeta.
  destruct (ComputeLegacyJoinAcceptMIC _ _) as [resMIC [e|]]; [discriminate|].
  case_bool_decide; [|discriminate].
  destruct (DeriveAppSKey _ _ _ _ _ _) as [k [e|]]; [discriminate|].
  intros [= <- <-]. exists resMIC. auto.
Qed.

Lemma GenerateJoinAccept_failure_inv (d : Device) (jr : JoinRequest) (tNonce tAddr : Z)
    (d' : Device) (ja : list byte) (e : error) :
  GenerateJoinAccept d jr tNonce tAddr = Done (d', (ja, Some e)) →
  d' = set_addr d (generateDevAddr draws tAddr) ∧ ja = [].
Proof.
  rewrite GenerateJoinAccept_unfold. cbv zeta.
  destruct (ComputeLegacyJoinAcceptMIC _ _) as [resMIC [e1|]].
  { intros [= <- <- <-]. auto. }
  case_bool_decide; [|discriminate].
  destruct (DeriveAppSKey _ _ _ _ _ _) as [k [e2|]]; [|discriminate].
  intros [= <- <- <-]. auto.
Qed.

(** C5: the frame of a successful GenerateJoinAccept is the MHDR 0x20
    followed by the encryption, under the AppKey, of the rest of the
    plaintext and the MIC, where the plaintext is
    0x20 | join nonce (LE) | net id (LE) | device address (LE) | 0x00 | 0x01
    and the MIC is computed over the whole plaintext under the AppKey. *)
Theorem GenerateJoinAccept_frame (d : Device) (jr : JoinRequest) (tNonce tAddr : Z)
    (d' : Device) (ja : list byte) :
  GenerateJoinAccept d jr tNonce tAddr = Done (d', (ja, None)) →
  ∃ j1 j2 j3 a3 a4 resMIC,
    generateJoinNonce draws tNonce = [j1; j2; j3] ∧
    generateDevAddr draws tAddr = [1; 2; a3; a4] ∧
    addr d' = [1; 2; a3; a4] ∧
    ComputeLegacyJoinAcceptMIC (AppKey d)
      [0x20; j3; j2; j1; 3; 2; 1; a4; a3; 2; 1; 0x00; 0x01] = (resMIC, None) ∧
    ja = 0x20 :: (EncryptJoinAccept (AppKey d)
                    ([j3; j2; j1; 3; 2; 1; a4; a3; 2; 1; 0x00; 0x01]
                     ++ mic_slice resMIC)).1.
Proof.
  intros H. apply GenerateJoinAccept_success_inv in H as (resMIC & Hmic & Hja & _ & Hd).
  eexists _, _, _, _, _, resMIC.
  split; [reflexivity|]. split; [reflexivity|].
  split; [rewrite Hd; reflexivity|].
  split; [exact Hmic | exact Hja].
Qed.

(** C1 (as amended): when the derivation of the session key fails,
    GenerateJoinAccept ends with the KeyDerivationFailed error and the
    AppSKey of the device is as before, while its address is already the
    freshly generated one; in every run that returns, the address is the
    generated one, the AppSKey is untouched on an error, and it is replaced
    by the derived key only together with a built frame. *)
Theorem GenerateJoinAccept_session_state
    (d : Device) (jr : JoinRequest) (tNonce tAddr : Z) :
  (∀ (resMIC : mic4) (k : AES128Key) (cause : error),
     (2 ≤ len (devNonce jr))%nat →
     ComputeLegacyJoinAcceptMIC (AppKey d)
       (accept_plaintext (generateJoinNonce draws tNonce) (generateDevAddr draws tAddr))
       = (resMIC, None) →
     DeriveAppSKey (AppKey d) (elems (joinEUI jr)) (elems (devEUI jr))
       (generateJoinNonce draws tNonce)
       (take 2 (reverse (elems (devNonce jr)))) netID = (k, Some cause) →
     GenerateJoinAccept d jr tNonce tAddr =
       Done (set_addr d (generateDevAddr draws tAddr),
             ([], Some (KeyDerivationFailed cause))) ∧
     appSKey (set_addr d (generateDevAddr draws tAddr)) = appSKey d ∧
     addr (set_addr d (generateDevAddr draws tAddr)) = generateDevAddr draws tAddr) ∧
  (∀ (d' : Device) (ja : list byte) (err : option error),
     GenerateJoinAccept d jr tNonce tAddr = Done (d', (ja, err)) →
     addr d' = generateDevAddr draws tAddr ∧
     (err ≠ None → appSKey d' = appSKey d) ∧
     (err = None →
        ∃ resMIC,
          ComputeLegacyJoinAcceptMIC (AppKey d)
            (accept_plaintext (generateJoinNonce draws tNonce) (generateDevAddr draws tAddr))
            = (resMIC, None) ∧
          ja = 0x20 :: (EncryptJoinAccept (AppKey d)
                          (drop 1 (accept_plaintext (generateJoinNonce draws tNonce)
                                                    (generateDevAddr draws tAddr))
                           ++ mic_slice resMIC)).1 ∧
          DeriveAppSKey (AppKey d) (elems (joinEUI jr)) (elems (devEUI jr))
            (generateJoinNonce draws tNonce)
            (take 2 (reverse (elems (devNonce jr)))) netID = (appSKey d', None))).
Proof.
  split.
  - intros resMIC k cause Hlen Hmic Hderive.
    rewrite GenerateJoinAccept_unfold. cbv zeta.
    rewrite Hmic, bool_decide_eq_true_2, Hderive by assumption. auto.
  - intros d' ja [e|] H.
    + apply GenerateJoinAccept_failure_inv in H as [-> ->].
      split; [reflexivity|]. split; [reflexivity | discriminate].
    + apply GenerateJoinAccept_success_inv in H as (resMIC & Hmic & Hja & Hk & Hd).
      split; [rewrite Hd; reflexivity|]. split; [congruence|].
      intros _. exists resMIC. auto.
Qed.

(** ** Dispatching a data uplink *)

(** C3 (the code departs from it): after a failed parse of a data uplink
    the function goes on to updateReadings with what the parse returned;
    when the returned name has no entry in the cache, an entry is added. *)
Theorem handlePacket_failed_uplink_updates
    (g : Gateway Val) (payload : slice) (env : join_env)
    (dev : string) (readings : gomap Val) (e : error) :
  index payload 0 = Done 0x40 →
  parseDataUplink g payload = (dev, readings, Some e) →
  lastReadings g !! dev = None →
  ∃ g', handlePacket g payload env = Done g' ∧
        lastReadings g' = <[dev := IfaceMap readings]> (lastReadings g) ∧
        lastReadings g' ≠ lastReadings g.
Proof.
  intros Hmhdr Hparse Habsent.
  unfold handlePacket. rewrite Hmhdr, bind_Done.
  rewrite bool_decide_eq_false_2 by discriminate.
  rewrite bool_decide_eq_true_2 by reflexivity.
  rewrite Hparse, updateReadings_absent by assumption.
  rewrite bind_Done. eexists. split; [reflexivity|]. simpl. split; [reflexivity|].
  intros Heq. apply (f_equal (λ m, m !! dev)) in Heq.
  rewrite lookup_insert_eq, Habsent in Heq. discriminate.
Qed.


(** * Further properties of the code *)

(** ** Byte order *)

(** X1: reverseByteArray returns a slice of the same length that holds the
    elements of its argument in the opposite order, element i being element
    len-1-i of the argument, and reversing twice gives the argument back. *)
Theorem reverseByteArray_mirror (arr : list byte) :
  length (reverseByteArray arr) = length arr ∧
  (∀ i : nat, (i < length arr)%nat →
     reverseByteArray arr !! i = arr !! (length arr - 1 - i)%nat) ∧
  reverseByteArray (reverseByteArray arr) = arr.
Proof.
  split; [apply reverseByteArray_length|].
  split; [|apply reverseByteArray_involutive].
  intros i Hi. rewrite reverseByteArray_reverse, reverse_lookup by assumption.
  f_equal. lia.
Qed.

(** ** Configuration validation *)

Lemma Validate_deps_nil (conf : Config) (path : string) : (Validate conf path).1 = [].
Proof.
  unfold Validate. destruct (Devices conf) as [|d rest]; [reflexivity|].
  simpl. unfold Validate_body, validateABPAttributes, validateOTAAAttributes, invalid, valid.
  repeat (case_bool_decide; simpl; try reflexivity).
  all: destruct (bool_decide (DeviceConfig.JoinType d = "OTAA")
                 || bool_decide (DeviceConfig.JoinType d = "")); simpl;
    repeat (case_bool_decide; simpl; try reflexivity).
Qed.

(** X2: Validate accepts a configuration exactly when its device list is
    empty or its first device has a decoder path and either join type ABP
    with an app session key and a network session key of 32 characters and
    a device address of 8, or join type OTAA (or none) with a dev EUI of 16
    characters and an app key of 32. *)
Theorem Validate_accepts_iff (conf : Config) (path : string) :
  Validate conf path = valid ↔
  match Devices conf with
  | [] => True
  | d :: _ =>
      DeviceConfig.DecoderPath d ≠ "" ∧
      ((DeviceConfig.JoinType d = "ABP" ∧
        String.length (DeviceConfig.AppSKey d) = 32%nat ∧
        String.length (DeviceConfig.NwkSKey d) = 32%nat ∧
        String.length (DeviceConfig.DevAddr d) = 8%nat) ∨
       ((DeviceConfig.JoinType d = "OTAA" ∨ DeviceConfig.JoinType d = "") ∧
        String.length (DeviceConfig.DevEUI d) = 16%nat ∧
        String.length (DeviceConfig.AppKey d) = 32%nat))
  end.
Proof.
  destruct conf as [devs]. destruct devs as [|d rest]; simpl.
  { split; [auto | reflexivity]. }
  change (_ ∧ _) with (spec_well_sized d).
  rewrite <- (Validate_head d rest path).
  pose proof (Validate_deps_nil (mkConfig (d :: rest)) path) as Hdeps.
  destruct (Validate (mkConfig (d :: rest)) path) as [deps err]. simpl in *. subst deps.
  unfold valid. split; [intros [= ->]; reflexivity | intros ->; reflexivity].
Qed.

Lemma empty_by_length (s s' : string) :
  String.length s = String.length s' → bool_decide (s = "") = bool_decide (s' = "").
Proof.
  intros H. apply bool_decide_ext.
  destruct s, s'; simpl in H; try discriminate; split; intros; congruence.
Qed.

(** X3: the result of Validate depends on the key fields of the first device
    only through their lengths: two configurations whose first devices have
    the same join type, both or neither a decoder path, and key fields of
    equal lengths get the same result, whether or not the fields are
    hexadecimal. *)
Theorem Validate_checks_lengths_only
    (d d' : DeviceConfig.t) (rest rest' : list DeviceConfig.t) (path : string) :
  (DeviceConfig.DecoderPath d = "" ↔ DeviceConfig.DecoderPath d' = "") →
  DeviceConfig.JoinType d = DeviceConfig.JoinType d' →
  String.length (DeviceConfig.DevEUI d) = String.length (DeviceConfig.DevEUI d') →
  String.length (DeviceConfig.AppKey d) = String.length (DeviceConfig.AppKey d') →
  String.length (DeviceConfig.AppSKey d) = String.length (DeviceConfig.AppSKey d') →
  String.length (DeviceConfig.NwkSKey d) = String.length (DeviceConfig.NwkSKey d') →
  String.length (DeviceConfig.DevAddr d) = String.length (DeviceConfig.DevAddr d') →
  Validate (mkConfig (d :: rest)) path = Validate (mkConfig (d' :: rest')) path.
Proof.
  intros Hdec Hjt He Hk Has Hns Hda.
  rewrite (Validate_first_device d rest), (Validate_first_device d' rest').
  unfold Validate. simpl. unfold Validate_body, validateABPAttributes, validateOTAAAttributes.
  rewrite (bool_decide_ext _ _ Hdec).
  rewrite <- Hjt, <- He, <- Hk, <- Has, <- Hns, <- Hda.
  rewrite <- (empty_by_length _ _ He), <- (empty_by_length _ _ Hk),
    <- (empty_by_length _ _ Has), <- (empty_by_length _ _ Hns),
    <- (empty_by_length _ _ Hda).
  reflexivity.
Qed.

(** ** The readings cache, continued *)

(** updateReadings stores under the name the entry computed from what was
    there, and touches nothing else. *)
Lemma updateReadings_entry {V : Type} (lr : gmap string (iface V))
    (dev : string) (new : gomap V) :
  updateReadings lr dev new =
    entry ← merge_entry (lr !! dev) new;
    Done (<[dev := entry]> lr).
Proof.
  unfold updateReadings, merge_entry.
  destruct (lr !! dev) as [[[old|]|v]|]; try reflexivity.
  - destruct (assign_entries (map_entries new) (Some old)); reflexivity.
  - destruct (assign_entries (map_entries new) None) as [r|p]; [|reflexivity].
    simpl. rewrite insert_insert_eq. reflexivity.
Qed.

(** X4: merging readings into a device that has a non-nil entry returns,
    and the entry then holds, under every key, the new value when the new
    readings have the key and the old value otherwise. *)
Theorem updateReadings_merged_lookup {V : Type} (lr : gmap string (iface V))
    (dev : string) (new old : gmap string V) :
  lr !! dev = Some (IfaceMap (Some old)) →
  ∃ merged,
    updateReadings lr dev (Some new) = Done (<[dev := IfaceMap (Some merged)]> lr) ∧
    ∀ key, merged !! key = match new !! key with
                           | Some v => Some v
                           | None => old !! key
                           end.
Proof.
  intros H. exists (new ∪ old). split; [apply updateReadings_merge; assumption|].
  intros key. rewrite lookup_union.
  destruct (new !! key), (old !! key); reflexivity.
Qed.


Lemma updateReadings_keeps_maps {V : Type} (lr : gmap string (iface V))
    (dev : string) (new : gmap string V) :
  map_Forall (λ _ entry, ∃ m, entry = IfaceMap (Some m)) lr →
  ∃ lr', updateReadings lr dev (Some new) = Done lr' ∧
         map_Forall (λ _ entry, ∃ m, entry = IfaceMap (Some m)) lr'.
Proof.
  intros Hall. destruct (lr !! dev) as [entry|] eqn:Hdev.
  - destruct (Hall dev entry Hdev) as [old ->].
    eexists. split; [apply updateReadings_merge; eassumption|].
    apply map_Forall_insert_2; eauto.
  - eexists. split; [apply updateReadings_absent; assumption|].
    apply map_Forall_insert_2; eauto.
Qed.

(** X6: starting from the empty cache, every sequence of updates with
    non-nil readings returns, and every entry of the cache it leaves is a
    non-nil map. *)
Theorem updateReadings_sequence_returns {V : Type} (updates : list (string * gmap string V)) :
  ∃ lr,
    foldl (λ acc update, lr ← acc; updateReadings lr update.1 (Some update.2))
          (Done (∅ : gmap string (iface V))) updates = Done lr ∧
    map_Forall (λ _ entry, ∃ m, entry = IfaceMap (Some m)) lr.
Proof.
  assert (Hgen : ∀ (lr0 : gmap string (iface V)),
    map_Forall (λ _ entry, ∃ m, entry = IfaceMap (Some m)) lr0 →
    ∃ lr,
      foldl (λ acc update, lr ← acc; updateReadings lr update.1 (Some update.2))
            (Done lr0) updates = Done lr ∧
      map_Forall (λ _ entry, ∃ m, entry = IfaceMap (Some m)) lr).
  { induction updates as [|[dev new] updates IH]; intros lr0 H0; simpl.
    - eauto.
    - destruct (updateReadings_keeps_maps lr0 dev new H0) as (lr1 & -> & H1).
      apply IH. assumption. }
  apply Hgen. apply map_Forall_empty.
Qed.

(** X7: repeating an update that returned changes nothing: the second call
    returns the cache the first one left. *)
Theorem updateReadings_idempotent {V : Type} (lr lr' : gmap string (iface V))
    (dev : string) (new : gmap string V) :
  updateReadings lr dev (Some new) = Done lr' →
  updateReadings lr' dev (Some new) = Done lr'.
Proof.
  destruct (lr !! dev) as [[[old|]|v]|] eqn:Hdev.
  - rewrite (updateReadings_merge lr dev new old Hdev). intros [= <-].
    erewrite updateReadings_merge by apply lookup_insert_eq.
    rewrite insert_insert_eq, (assoc_L (∪)), (idemp_L (∪)). reflexivity.
  - destruct (decide (new = ∅)) as [->|Hne].
    + rewrite updateReadings_entry, Hdev. simpl. rewrite map_to_list_empty. simpl.
      intros [= <-].
      rewrite updateReadings_entry, lookup_insert_eq. simpl.
      rewrite map_to_list_empty. simpl. rewrite insert_insert_eq. reflexivity.
    + rewrite updateReadings_entry, Hdev. simpl. rewrite assign_entries_nil; [discriminate|]. intros Hl. apply map_to_list_empty_iff in Hl. contradiction.
  - rewrite updateReadings_entry, Hdev. simpl. intros [= <-].
    erewrite updateReadings_merge by apply lookup_insert_eq.
    rewrite insert_insert_eq, (idemp_L (∪)). reflexivity.
  - rewrite updateReadings_absent by assumption. intros [= <-].
    erewrite updateReadings_merge by apply lookup_insert_eq.
    rewrite insert_insert_eq, (idemp_L (∪)). reflexivity.
Qed.


(** ** Parsing a join request, continued *)

Lemma match_devices_app (eui : list byte) (l1 l2 : list Device) :
  ∀ (i : nat) (matched : option nat),
    match_devices (l1 ++ l2) i eui matched =
    match_devices l2 (i + length l1) eui (match_devices l1 i eui matched).
Proof.
  induction l1 as [|d l1 IH]; intros i matched; simpl.
  - rewrite Nat.add_0_r. reflexivity.
  - rewrite IH. f_equal. lia.
Qed.

(** The match is the last visited device with that devEui. *)
Lemma match_devices_last (eui : list byte) (devs : list Device) :
  ∀ j : nat,
    match_devices devs 0 eui None = Some j →
    ∃ d, devs !! j = Some d ∧ devEui d = eui ∧
         ∀ (j' : nat) (d' : Device),
           (j < j')%nat → devs !! j' = Some d' → devEui d' ≠ eui.
Proof.
  induction devs as [|d devs IH] using rev_ind; intros j H; [discriminate|].
  rewrite match_devices_app in H. simpl in H. unfold bytes_Equal in H.
  case_bool_decide as Heq.
  - injection H as <-. exists d. split; [apply list_lookup_middle; reflexivity|].
    split; [assumption|]. intros j' d' Hlt Hl.
    apply lookup_lt_Some in Hl. rewrite length_app in Hl. simpl in Hl. lia.
  - apply IH in H as (d0 & Hl & He & Hlater).
    exists d0. split; [apply lookup_app_l_Some; assumption|].
    split; [assumption|]. intros j' d' Hlt Hl'.
    destruct (decide (j' < length devs)%nat) as [Hin|Hout].
    + rewrite lookup_app_l in Hl' by assumption. eapply Hlater; eassumption.
    + assert (j' = length devs).
      { apply lookup_lt_Some in Hl'. rewrite length_app in Hl'. simpl in Hl'. lia. }
      subst j'. rewrite list_lookup_middle in Hl' by reflexivity.
      injection Hl' as <-. assumption.
Qed.

Lemma validateMIC_accepts_23_bytes (appKey : AES128Key) (payload : slice) :
  validateMIC appKey payload = Done None → len payload = 23%nat.
Proof.
  unfold validateMIC, reslice_to, reslice_from.
  destruct (reslice payload 0 19) as [prefix|p]; [|discriminate].
  rewrite bind_Done.
  destruct (ComputeJoinRequestMIC appKey (elems prefix)) as [computed [e|]]; [discriminate|].
  destruct (reslice payload 19 (len payload)) as [rest|p] eqn:Hrest; [|discriminate].
  rewrite bind_Done. unfold bytes_Equal. case_bool_decide as Heq; [|discriminate].
  intros _. pose proof (reslice_len _ _ _ _ Hrest) as Hlen.
  unfold reslice in Hrest.
  destruct (bool_decide (19 ≤ len payload)%nat) eqn:Hlo; [|discriminate].
  apply bool_decide_eq_true_1 in Hlo.
  unfold len in Hlen at 1. rewrite Heq in Hlen. simpl in Hlen. lia.
Qed.

Lemma parseJoinRequestPacket_accepts_23_bytes_aux (payload : slice) (devs : list Device)
    (jr : JoinRequest) (device : option nat) :
  parseJoinRequestPacket payload devs = Done (jr, device, None) →
  len payload = 23%nat.
Proof.
  destruct (decide (cap payload < 23)%nat) as [Hshort|Hcap].
  { rewrite parseJoinRequestPacket_short by assumption. discriminate. }
  rewrite parseJoinRequestPacket_fields by lia. cbv zeta.
  case_bool_decide; [discriminate|].
  destruct (validateMIC _ payload) as [[e|]|p] eqn:Hv; simpl; try discriminate.
  intros _. eapply validateMIC_accepts_23_bytes. eassumption.
Qed.

(** X9: parseJoinRequestPacket accepts a payload only when its length is
    exactly 23 bytes: every shorter or longer payload ends in an error or a
    panic. *)
Theorem parseJoinRequestPacket_accepts_23_bytes (payload : slice) (devs : list Device)
    (jr : JoinRequest) (device : option nat) :
  parseJoinRequestPacket payload devs = Done (jr, device, None) →
  len payload = 23%nat.
Proof. apply parseJoinRequestPacket_accepts_23_bytes_aux. Qed.

Lemma parseJoinRequestPacket_success_inv (payload : slice) (devs : list Device)
    (jr : JoinRequest) (device : option nat) :
  parseJoinRequestPacket payload devs = Done (jr, device, None) →
  jr = wire_request payload ∧
  ∃ (i : nat) (d : Device),
    device = Some i ∧ devs !! i = Some d ∧ name d ≠ "" ∧
    devEui d = reverse (elems (devEUI jr)) ∧
    validateMIC (AppKey d) payload = Done None ∧
    ∀ (j : nat) (d' : Device),
      (i < j)%nat → devs !! j = Some d' → devEui d' ≠ reverse (elems (devEUI jr)).
Proof.
  destruct (decide (cap payload < 23)%nat) as [Hshort|Hcap].
  { rewrite parseJoinRequestPacket_short by assumption. discriminate. }
  rewrite parseJoinRequestPacket_fields by lia. cbv zeta.
  case_bool_decide as Hname; [discriminate|].
  destruct (validateMIC _ payload) as [[e|]|p] eqn:Hv; simpl; try discriminate.
  intros [= <- <-]. split; [reflexivity|].
  destruct (match_devices devs 0 (reverse (elems (devEUI (wire_request payload)))) None)
    as [i|] eqn:Hm; [|contradiction Hname; reflexivity].
  destruct (match_devices_last _ _ _ Hm) as (d & Hl & He & Hlater).
  simpl in Hname, Hv. rewrite Hl in Hname, Hv. simpl in Hname, Hv.
  exists i, d. auto 10.
Qed.

(** X10: when parseJoinRequestPacket accepts a payload, the request holds
    the fields at their offsets and the device returned is a visited device
    with a name, whose devEui is the reversed wire devEUI and whose AppKey
    validates the MIC; among the devices with that devEui it is the last
    one visited. *)
Theorem parseJoinRequestPacket_authenticated (payload : slice) (devs : list Device)
    (jr : JoinRequest) (device : option nat) :
  parseJoinRequestPacket payload devs = Done (jr, device, None) →
  jr = wire_request payload ∧
  ∃ (i : nat) (d : Device),
    device = Some i ∧ devs !! i = Some d ∧ name d ≠ "" ∧
    devEui d = reverse (elems (devEUI jr)) ∧
    validateMIC (AppKey d) payload = Done None ∧
    ∀ (j : nat) (d' : Device),
      (i < j)%nat → devs !! j = Some d' → devEui d' ≠ reverse (elems (devEUI jr)).
Proof. apply parseJoinRequestPacket_success_inv. Qed.

(** X11: a device whose name is empty never joins: when the last visited
    device with the devEui of the request has the empty name, the request
    ends with the unknown-device error, whatever its MIC and whatever
    other devices share the devEui. *)
Theorem parseJoinRequestPacket_nameless_device (payload : slice)
    (before after : list Device) (d : Device) :
  (23 ≤ cap payload)%nat →
  devEui d = reverse (take 8 (drop 9 (backing payload))) →
  name d = "" →
  Forall (λ d', devEui d' ≠ reverse (take 8 (drop 9 (backing payload)))) after →
  parseJoinRequestPacket payload (before ++ d :: after)
  = Done (zeroJoinRequest, None, Some UnknownDevice).
Proof.
  intros Hcap He Hname Hafter.
  assert (Hm : match_devices (before ++ d :: after) 0
                 (reverse (take 8 (drop 9 (backing payload)))) None
               = Some (length before)).
  { rewrite match_devices_app. simpl. unfold bytes_Equal.
    rewrite bool_decide_eq_true_2 by assumption.
    apply match_devices_unmatched. assumption. }
  rewrite parseJoinRequestPacket_fields by assumption. cbv zeta.
  change (elems (devEUI (wire_request payload)))
    with (take 8 (drop 9 (backing payload))).
  rewrite Hm. simpl. rewrite list_lookup_middle by reflexivity. simpl.
  rewrite bool_decide_eq_true_2 by assumption. reflexivity.
Qed.

(** ** Generating a join accept, continued *)

Lemma GenerateJoinAccept_identity (d : Device) (jr : JoinRequest)
    (tNonce tAddr : Z) (d' : Device) (result : list byte * option error) :
  GenerateJoinAccept d jr tNonce tAddr = Done (d', result) →
  name d' = name d ∧ decoderPath d' = decoderPath d ∧ nwkSKey d' = nwkSKey d ∧
  AppKey d' = AppKey d ∧ devEui d' = devEui d.
Proof.
  destruct result as [ja [e|]]; intros H.
  - apply GenerateJoinAccept_failure_inv in H as [-> _]. auto.
  - apply GenerateJoinAccept_success_inv in H as (_ & _ & _ & _ & ->). auto.
Qed.

(** X13: GenerateJoinAccept changes nothing of the device but its address
    and its application session key: name, decoder path, network session
    key, AppKey and devEui are those of the device it was called on. *)
Theorem GenerateJoinAccept_preserves_identity (d : Device) (jr : JoinRequest)
    (tNonce tAddr : Z) (d' : Device) (result : list byte * option error) :
  GenerateJoinAccept d jr tNonce tAddr = Done (d', result) →
  name d' = name d ∧ decoderPath d' = decoderPath d ∧ nwkSKey d' = nwkSKey d ∧
  AppKey d' = AppKey d ∧ devEui d' = devEui d.
Proof. apply GenerateJoinAccept_identity. Qed.

(** X14: the two generators read the same draws of a source seeded with
    the same clock reading: with equal seeds, the two low bytes of the
    device address are the first two bytes of the join nonce. *)
Theorem generators_share_draws (source : Z → nat → Z) (now : Z) :
  ∃ a b c,
    generateDevAddr source now = [1; 2; a; b] ∧
    generateJoinNonce source now = [a; b; c].
Proof. eexists _, _, _. split; reflexivity. Qed.

(** ** Handling a join request *)

(** The outcomes of handleJoin, by the results of its two steps. *)
Lemma handleJoin_cases (g g' : Gateway Val) (payload : slice) (env : join_env)
    (err : option error) :
  handleJoin g payload env = Done (g', err) →
  (g' = g ∧ ∃ jr device e,
     parseJoinRequestPacket payload (devices g) = Done (jr, device, Some e)) ∨
  (∃ jr i d' ja gerr,
     parseJoinRequestPacket payload (devices g) = Done (jr, Some i, None) ∧
     GenerateJoinAccept (deref (devices g) (Some i)) jr (nowNonce env) (nowAddr env)
       = Done (d', (ja, gerr)) ∧
     lastReadings g' = lastReadings g ∧
     devices g' = <[i := d']> (devices g) ∧
     (sent g' = sent g ∨ ∃ pkt, sent g' = sent g ++ [pkt])).
Proof.
  unfold handleJoin.
  destruct (parseJoinRequestPacket payload (devices g)) as [[[jr device] [e|]]|p] eqn:Hp;
    rewrite ?bind_Done; try discriminate.
  { intros [= <- <-]. left. eauto 10. }
  destruct device as [i|]; [|discriminate].
  destruct (GenerateJoinAccept _ jr _ _) as [[d' [ja gerr]]|p] eqn:Hg;
    rewrite ?bind_Done; try discriminate.
  intros H. right. exists jr, i, d', ja, gerr.
  split; [reflexivity|]. split; [assumption|].
  destruct gerr as [e|].
  { injection H as <- <-. simpl. auto. }
  destruct (fill_cPayload ja) as [cPayload|p]; [|discriminate].
  rewrite bind_Done in H. simpl in H.
  case_bool_decide; injection H as <- <-; simpl; eauto 10.
Qed.

(** X15: when the request is accepted and the frame is built within 256
    bytes, handleJoin stores the device with its new session state and hands
    the radio one packet: 923.3 MHz, spreading factor 12, bandwidth 0x06,
    coding rate 4/5, inverted polarity, 26 dBm, the frame padded with
    zeros to 256 bytes and its length as size.  The result is the transmit
    error exactly when the radio reports a non-zero status, and the session
    state stays stored in that case too. *)
Theorem handleJoin_transmits (g : Gateway Val) (payload : slice) (env : join_env)
    (jr : JoinRequest) (i : nat) (d' : Device) (ja : list byte) :
  parseJoinRequestPacket payload (devices g) = Done (jr, Some i, None) →
  GenerateJoinAccept (deref (devices g) (Some i)) jr (nowNonce env) (nowAddr env)
    = Done (d', (ja, None)) →
  (length ja ≤ 256)%nat →
  handleJoin g payload env =
    Done (mkGateway (lastReadings g) (<[i := d']> (devices g))
            (sent g ++ [mkTxPkt 923300000 0 0 26 0x10 0x06 12 0x01 true
                          (Z.of_nat (length ja))
                          (ja ++ replicate (256 - length ja) 0)]),
          if bool_decide (send_status env = 0) then None else Some RadioTransmitFailed).
Proof.
  intros Hp Hg Hlen. unfold handleJoin. rewrite Hp, bind_Done. cbv beta iota zeta.
  rewrite Hg, bind_Done. cbv beta iota zeta. unfold fill_cPayload.
  rewrite (bool_decide_eq_true_2 (length ja ≤ 256)%nat) by assumption.
  rewrite bind_Done. simpl.
  rewrite Z.mod_small by lia.
  unfold rx2Frequenecy, rx2Bandwidth, rx2SF.
  destruct (decide (send_status env = 0)) as [H0|H0].
  - rewrite (bool_decide_eq_false_2 (send_status env ≠ 0)) by auto.
    rewrite (bool_decide_eq_true_2 (send_status env = 0)) by assumption.
    reflexivity.
  - rewrite (bool_decide_eq_true_2 (send_status env ≠ 0)) by assumption.
    rewrite (bool_decide_eq_false_2 (send_status env = 0)) by assumption.
    reflexivity.
Qed.

(** X16: whatever handleJoin returns, the readings cache is as before, at
    most one packet has been handed to the radio, the devices are as many
    as before, all but one of them are untouched, and every device keeps its
    name, decoder path, network session key, AppKey and devEui. *)
Theorem handleJoin_frame (g g' : Gateway Val) (payload : slice) (env : join_env)
    (err : option error) :
  handleJoin g payload env = Done (g', err) →
  lastReadings g' = lastReadings g ∧
  (sent g' = sent g ∨ ∃ pkt, sent g' = sent g ++ [pkt]) ∧
  length (devices g') = length (devices g) ∧
  (∃ i : nat, ∀ j : nat, j ≠ i → devices g' !! j = devices g !! j) ∧
  (∀ (j : nat) (d d' : Device),
     devices g !! j = Some d → devices g' !! j = Some d' →
     name d' = name d ∧ decoderPath d' = decoderPath d ∧ nwkSKey d' = nwkSKey d ∧
     AppKey d' = AppKey d ∧ devEui d' = devEui d).
Proof.
  intros H. apply handleJoin_cases in H
    as [[-> _] | (jr & i & d1 & ja & gerr & Hp & Hg & Hr & Hd & Hs)].
  { split; [reflexivity|]. split; [auto|]. split; [reflexivity|].
    split; [exists 0%nat; reflexivity|].
    intros j d d' H1 H2. rewrite H1 in H2. injection H2 as <-. auto. }
  split; [assumption|]. split; [assumption|].
  rewrite Hd. split; [apply length_insert|].
  split.
  { exists i. intros j Hne. apply list_lookup_insert_ne. congruence. }
  intros j d d' H1 H2.
  destruct (decide (j = i)) as [->|Hne].
  - rewrite list_lookup_insert_eq in H2 by (eapply lookup_lt_Some; eassumption).
    injection H2 as <-.
    simpl in Hg. rewrite H1 in Hg. simpl in Hg.
    eapply GenerateJoinAccept_identity. eassumption.
  - rewrite list_lookup_insert_ne in H2 by congruence.
    rewrite H1 in H2. injection H2 as <-. auto.
Qed.

(** X17: handleJoin changes the gateway only for an authenticated request:
    when the gateway it returns differs from the one it was called on, the
    payload is 23 bytes long and some device with a name has the reversed
    wire devEUI as its devEui and an AppKey that validates the MIC. *)
Theorem handleJoin_acts_on_authenticated (g g' : Gateway Val) (payload : slice)
    (env : join_env) (err : option error) :
  handleJoin g payload env = Done (g', err) →
  g' ≠ g →
  len payload = 23%nat ∧
  ∃ (i : nat) (d : Device),
    devices g !! i = Some d ∧ name d ≠ "" ∧
    devEui d = reverse (take 8 (drop 9 (elems payload))) ∧
    validateMIC (AppKey d) payload = Done None.
Proof.
  intros H Hne. apply handleJoin_cases in H
    as [[-> _] | (jr & i & d1 & ja & gerr & Hp & _)]; [contradiction|].
  destruct (parseJoinRequestPacket_success_inv _ _ _ _ Hp)
    as (-> & i' & d & _ & Hl & Hname & He & Hv & _).
  pose proof (validateMIC_accepts_23_bytes _ _ Hv) as Hlen.
  split; [assumption|]. exists i', d.
  split; [assumption|]. split; [assumption|]. split; [|assumption].
  rewrite He. simpl. unfold backing, len in *.
  rewrite drop_app_le by lia. rewrite take_app_le by (rewrite length_drop; lia).
  reflexivity.
Qed.

(** ** Dispatching a packet *)

(** X18: handlePacket panics on an empty payload, and leaves the gateway as
    it is for every MHDR other than 0x00 and 0x40. *)
Theorem handlePacket_other_mhdr (g : Gateway Val) (payload : slice) (env : join_env) :
  (elems payload = [] → handlePacket g payload env = Panic IndexOutOfRange) ∧
  (∀ mhdr : byte,
     index payload 0 = Done mhdr → mhdr ≠ 0x00 → mhdr ≠ 0x40 →
     handlePacket g payload env = Done g).
Proof.
  split.
  - intros Hnil. unfold handlePacket, index. rewrite Hnil. reflexivity.
  - intros mhdr Hm H0 H40. unfold handlePacket. rewrite Hm, bind_Done.
    rewrite !bool_decide_eq_false_2 by assumption. reflexivity.
Qed.

(** X19: a data uplink touches the readings cache only, and every other
    packet leaves the cache alone: when handlePacket returns on MHDR 0x40,
    the devices and the packets sent are as before and the cache is what
    updateReadings returns for the name and the readings of the decoder;
    on any other MHDR the cache is as before. *)
Theorem handlePacket_separation (g g' : Gateway Val) (payload : slice)
    (env : join_env) (mhdr : byte) :
  index payload 0 = Done mhdr →
  handlePacket g payload env = Done g' →
  (mhdr = 0x40 →
     devices g' = devices g ∧ sent g' = sent g ∧
     updateReadings (lastReadings g) (parseDataUplink g payload).1.1
       (parseDataUplink g payload).1.2 = Done (lastReadings g')) ∧
  (mhdr ≠ 0x40 → lastReadings g' = lastReadings g).
Proof.
  intros Hm. unfold handlePacket. rewrite Hm, bind_Done.
  case_bool_decide as H0.
  - subst mhdr.
    destruct (handleJoin g payload env) as [[g1 err]|p] eqn:Hj; [|discriminate].
    rewrite bind_Done. intros [= <-].
    split; [discriminate|]. intros _.
    apply handleJoin_cases in Hj as [[-> _] | (_ & _ & _ & _ & _ & _ & _ & Hr & _)];
      [reflexivity | assumption].
  - case_bool_decide as H40.
    + destruct (parseDataUplink g payload) as [[dev readings] derr]. simpl.
      destruct (updateReadings (lastReadings g) dev readings) as [lr|p]; [|discriminate].
      rewrite bind_Done. intros [= <-]. simpl.
      split; [auto | contradiction].
    + intros [= <-]. split; [contradiction | reflexivity].
Qed.

(** ** The poll loop, continued *)

Lemma copy_payload_spec (packet : RxPkt) :
  ∀ (todo i : nat) (payload : list byte),
    (i ≤ length (rx_payload packet))%nat →
    copy_payload todo i packet payload =
      if bool_decide (i + todo ≤ length (rx_payload packet))%nat
      then Done (payload ++ (to_byte <$> take todo (drop i (rx_payload packet))))
      else Panic IndexOutOfRange.
Proof.
  induction todo as [|todo IH]; intros i payload Hi; simpl.
  - rewrite bool_decide_eq_true_2 by lia.
    simpl. rewrite app_nil_r. reflexivity.
  - destruct (rx_payload packet !! i) as [b|] eqn:Hb.
    + pose proof (lookup_lt_Some _ _ _ Hb) as Hlt. unfold byte in *.
      rewrite IH by lia.
      case_bool_decide as H1; case_bool_decide as H2; try lia; [|reflexivity].
      rewrite <- (assoc_L (++)). do 2 f_equal.
      rewrite (drop_S _ b i) by assumption. reflexivity.
    + apply lookup_ge_None in Hb. unfold byte in *.
      rewrite bool_decide_eq_false_2 by lia. reflexivity.
Qed.

(** X20: an iteration of the poll loop hands a payload to handlePacket
    exactly when the context is not done, C.receive reports one packet, and
    the size of the packet is neither zero nor beyond its payload array; the
    payload is then the first size bytes of the array. *)
Theorem receiveIteration_Dispatch_iff (ev : poll_event) (payload : slice) :
  receiveIteration ev = Dispatch payload ↔
  done_at_top ev = false ∧ numPackets ev = 1 ∧
  rx_size (packet ev) ≠ 0%nat ∧
  (rx_size (packet ev) ≤ length (rx_payload (packet ev)))%nat ∧
  payload = Slice (to_byte <$> take (rx_size (packet ev)) (rx_payload (packet ev)))
                  (append_spare ev).
Proof.
  unfold receiveIteration.
  destruct (done_at_top ev).
  { split; [discriminate | intros [? _]; discriminate]. }
  case_bool_decide as H0.
  { split; [destruct (done_in_wait ev); discriminate | intros (_ & ? & _); lia]. }
  case_bool_decide as H1; [|split; [discriminate | intros (_ & ? & _); contradiction]].
  case_bool_decide as Hs; [split; [discriminate | intros (_ & _ & ? & _); contradiction]|].
  rewrite copy_payload_spec by lia. simpl.
  case_bool_decide as Hle.
  - split.
    + intros [= <-]. auto.
    + intros (_ & _ & _ & _ & ->). reflexivity.
  - split; [discriminate | intros (_ & _ & _ & ? & _); contradiction].
Qed.

(** X21: a packet whose reported size is beyond its payload array crashes
    the poll loop: the copy indexes the array out of range. *)
Theorem receiveIteration_oversize_crashes (ev : poll_event) :
  done_at_top ev = false →
  numPackets ev = 1 →
  (length (rx_payload (packet ev)) < rx_size (packet ev))%nat →
  receiveIteration ev = Crash IndexOutOfRange.
Proof.
  intros Hd Hn Hlt. unfold receiveIteration. rewrite Hd, Hn. simpl.
  rewrite bool_decide_eq_false_2 by lia.
  rewrite copy_payload_spec by lia. simpl.
  rewrite bool_decide_eq_false_2 by lia. reflexivity.
Qed.

(** X22: the poll loop over two runs of observations, one after the
    other: while the first run leaves the loop going, the payloads handed
    over are those of the first run followed by those of the second; once
    the first run ends the loop, by cancellation or by a crash, nothing of
    the second run is handed over. *)
Theorem receivePackets_app (first second : list poll_event) :
  receivePackets (first ++ second) =
    match receivePackets first with
    | (tasks, Running) =>
        (tasks ++ (receivePackets second).1, (receivePackets second).2)
    | ended => ended
    end.
Proof.
  induction first as [|ev first IH]; simpl.
  - destruct (receivePackets second); reflexivity.
  - destruct (receiveIteration ev); try reflexivity; [assumption|].
    rewrite IH. destruct (receivePackets first) as [tasks []]; reflexivity.
Qed.

(** ** Starting the gateway *)

(** What a device that loads without error holds. *)
Lemma loadDevice_fields (hex : string → list byte * option error)
    (c : DeviceConfig.t) (dev : Device) :
  loadDevice hex c = Done (dev, None) →
  name dev = DeviceConfig.Name c ∧
  decoderPath dev = DeviceConfig.DecoderPath c ∧
  nwkSKey dev = zeroKey ∧
  (DeviceConfig.JoinType c ≠ "OTAA" → DeviceConfig.JoinType c ≠ "" →
     devEui dev = [] ∧ AppKey dev = zeroKey).
Proof.
  unfold loadDevice.
  destruct (bool_decide (DeviceConfig.JoinType c = "OTAA")
            || bool_decide (DeviceConfig.JoinType c = "")) eqn:Hotaa.
  - apply orb_true_iff in Hotaa.
    destruct (hex (DeviceConfig.AppKey c)) as [kb [e|]]; [discriminate|].
    destruct (to_array 16 kb) as [key|p]; [|discriminate]. rewrite bind_Done.
    destruct (hex (DeviceConfig.DevEUI c)) as [eb [e|]]; [discriminate|].
    intros [= <-]. simpl. repeat split; try reflexivity;
      intros; destruct Hotaa as [Hj|Hj]; apply bool_decide_eq_true_1 in Hj; contradiction.
  - destruct (bool_decide (DeviceConfig.JoinType c = "ABP")).
    + destruct (hex (DeviceConfig.DevAddr c)) as [ab [e|]]; [discriminate|].
      destruct (hex (DeviceConfig.AppSKey c)) as [sb [e|]]; [discriminate|].
      destruct (to_array 16 sb) as [key|p]; [|discriminate]. rewrite bind_Done.
      intros [= <-]. simpl. auto.
    + intros [= <-]. simpl. auto.
Qed.

Lemma loadDevices_app (hex : string → list byte * option error)
    (first second : list DeviceConfig.t) :
  ∀ m : gmap string Device,
    loadDevices hex (first ++ second) m =
      match loadDevices hex first m with
      | Done (m', None) => loadDevices hex second m'
      | failed => failed
      end.
Proof.
  induction first as [|c first IH]; intros m; simpl; [reflexivity|].
  destruct (loadDevice hex c) as [[dev [e|]]|p]; simpl; try reflexivity.
  apply IH.
Qed.

Lemma loadDevices_ok (hex : string → list byte * option error)
    (configs : list DeviceConfig.t) :
  ∀ m : gmap string Device,
    Forall (λ c, ∃ dev, loadDevice hex c = Done (dev, None)) configs →
    ∃ m', loadDevices hex configs m = Done (m', None).
Proof.
  induction configs as [|c configs IH]; intros m Hall; simpl; [eauto|].
  apply Forall_cons in Hall as [[dev Hdev] Hall].
  rewrite Hdev. simpl. apply IH. assumption.
Qed.

(** Every entry of the map built is either an entry of the map the loop
    started with or the device loaded from a configuration of that name. *)
Lemma loadDevices_lookup (hex : string → list byte * option error)
    (configs : list DeviceConfig.t) :
  ∀ (m m' : gmap string Device) (key : string) (dev : Device),
    loadDevices hex configs m = Done (m', None) →
    m' !! key = Some dev →
    m !! key = Some dev ∨
    ∃ c, c ∈ configs ∧ DeviceConfig.Name c = key ∧ loadDevice hex c = Done (dev, None).
Proof.
  induction configs as [|c configs IH]; intros m m' key dev H Hl; simpl in H.
  - injection H as <-. auto.
  - destruct (loadDevice hex c) as [[dev0 [e|]]|p] eqn:Hc; simpl in H; try discriminate.
    destruct (IH _ _ _ _ H Hl) as [Hin | (c' & Hin & Hn & Hd)].
    + destruct (decide (DeviceConfig.Name c = key)) as [Heq|Hne].
      * rewrite Heq, lookup_insert_eq in Hin. injection Hin as <-.
        right. exists c. split; [left|]. auto.
      * rewrite lookup_insert_ne in Hin by assumption. auto.
    + right. exists c'. split; [right; assumption | auto].
Qed.

Lemma loadDevices_keeps (hex : string → list byte * option error)
    (configs : list DeviceConfig.t) :
  ∀ (m m' : gmap string Device) (key : string),
    loadDevices hex configs m = Done (m', None) →
    is_Some (m !! key) → is_Some (m' !! key).
Proof.
  induction configs as [|c configs IH]; intros m m' key H Hs; simpl in H.
  - injection H as <-. assumption.
  - destruct (loadDevice hex c) as [[dev0 [e|]]|p] eqn:Hc; simpl in H; try discriminate.
    eapply IH; [eassumption|]. apply lookup_insert_is_Some'. auto.
Qed.

Lemma loadDevices_unnamed (hex : string → list byte * option error)
    (configs : list DeviceConfig.t) :
  ∀ (m m' : gmap string Device) (key : string),
    loadDevices hex configs m = Done (m', None) →
    Forall (λ c, DeviceConfig.Name c ≠ key) configs →
    m' !! key = m !! key.
Proof.
  induction configs as [|c configs IH]; intros m m' key H Hall; simpl in H.
  - injection H as <-. reflexivity.
  - apply Forall_cons in Hall as [Hc Hall].
    destruct (loadDevice hex c) as [[dev0 [e|]]|p]; simpl in H; try discriminate.
    rewrite (IH _ _ _ H Hall). apply lookup_insert_ne. assumption.
Qed.

Lemma newGateway_started (hex : string → list byte * option error)
    (cfg : Config) (status : Z) (calls : list hal_call) (devs : gmap string Device) :
  newGateway hex (cfg, None) status = Done (calls, Some devs, None) →
  status = 0 ∧
  calls = [HalInitGPIO; HalResetGPIO; HalSetUpGateway 0; HalReceivePackets] ∧
  loadDevices hex (Devices cfg) ∅ = Done (devs, None).
Proof.
  unfold newGateway. case_bool_decide as Hs; [discriminate|].
  destruct (loadDevices hex (Devices cfg) ∅) as [[m [e|]]|p]; simpl; try discriminate.
  intros [= <- <-]. split; [|auto]. destruct (decide (status = 0)); [assumption|contradiction].
Qed.

(** X23: when newGateway returns a gateway, the hardware was initialised,
    reset and set up, in that order, before the poll loop was started; every
    configured name has a device in the map, and every device of the map is
    stored under its own name, was loaded from a configuration of that name,
    and has the zero network session key: the configured network session
    key is never loaded. *)
Theorem newGateway_devices (hex : string → list byte * option error)
    (cfg : Config) (status : Z) (calls : list hal_call) (devs : gmap string Device) :
  newGateway hex (cfg, None) status = Done (calls, Some devs, None) →
  calls = [HalInitGPIO; HalResetGPIO; HalSetUpGateway 0; HalReceivePackets] ∧
  (∀ c, c ∈ Devices cfg → is_Some (devs !! DeviceConfig.Name c)) ∧
  (∀ (key : string) (dev : Device),
     devs !! key = Some dev →
     name dev = key ∧ nwkSKey dev = zeroKey ∧
     ∃ c, c ∈ Devices cfg ∧ DeviceConfig.Name c = key ∧
          loadDevice hex c = Done (dev, None)).
Proof.
  intros H. apply newGateway_started in H as (_ & -> & Hload).
  split; [reflexivity|]. split.
  - intros c Hin. apply list_elem_of_split in Hin as (pre & post & Hsplit).
    rewrite Hsplit, loadDevices_app in Hload.
    destruct (loadDevices hex pre ∅) as [[m1 [e|]]|p]; try discriminate.
    simpl in Hload.
    destruct (loadDevice hex c) as [[dev0 [e|]]|p]; simpl in Hload; try discriminate.
    eapply loadDevices_keeps; [eassumption|]. rewrite lookup_insert_eq. eauto.
  - intros key dev Hl.
    destruct (loadDevices_lookup _ _ _ _ _ _ Hload Hl) as [Hempty | (c & Hin & Hn & Hd)].
    { rewrite lookup_empty in Hempty. discriminate. }
    destruct (loadDevice_fields _ _ _ Hd) as (Hname & _ & Hnwk & _).
    split; [congruence|]. split; [assumption|]. eauto.
Qed.

(** X24: of several configurations with the same name the last one is the
    device of the gateway: when newGateway returns a gateway and no later
    configuration has the name of a configuration, the map holds under that
    name the device loaded from it. *)
Theorem newGateway_last_name_wins (hex : string → list byte * option error)
    (before after : list DeviceConfig.t) (c : DeviceConfig.t) (status : Z)
    (calls : list hal_call) (devs : gmap string Device) :
  newGateway hex (mkConfig (before ++ c :: after), None) status
    = Done (calls, Some devs, None) →
  Forall (λ c', DeviceConfig.Name c' ≠ DeviceConfig.Name c) after →
  ∃ dev, loadDevice hex c = Done (dev, None) ∧ devs !! DeviceConfig.Name c = Some dev.
Proof.
  intros H Hafter. apply newGateway_started in H as (_ & _ & Hload).
  simpl in Hload. rewrite loadDevices_app in Hload.
  destruct (loadDevices hex before ∅) as [[m1 [e|]]|p]; try discriminate.
  simpl in Hload.
  destruct (loadDevice hex c) as [[dev [e|]]|p]; simpl in Hload; try discriminate.
  exists dev. split; [reflexivity|].
  rewrite (loadDevices_unnamed _ _ _ _ _ Hload Hafter). apply lookup_insert_eq.
Qed.

(** X25: a gateway started from a configuration without OTAA devices
    answers no join request: every device has an empty devEui, and
    handleJoin ends with the unknown-device error and leaves the gateway as
    it is, whatever the payload of 23 bytes or more. *)
Theorem newGateway_without_otaa_never_joins (hex : string → list byte * option error)
    (cfg : Config) (status : Z) (calls : list hal_call) (devs : gmap string Device)
    (g : Gateway Val) (payload : slice) (env : join_env) :
  newGateway hex (cfg, None) status = Done (calls, Some devs, None) →
  Forall (λ c, DeviceConfig.JoinType c ≠ "OTAA" ∧ DeviceConfig.JoinType c ≠ "")
         (Devices cfg) →
  started devs g →
  (23 ≤ cap payload)%nat →
  Forall (λ d, devEui d = []) (devices g) ∧
  handleJoin g payload env = Done (g, Some UnknownDevice).
Proof.
  intros H Hall (_ & _ & Hperm) Hcap.
  apply newGateway_started in H as (_ & _ & Hload).
  assert (Heui : Forall (λ d, devEui d = []) (devices g)).
  { rewrite Hperm. apply Forall_fmap, Forall_forall. intros [key dev] Hin. simpl.
    apply elem_of_map_to_list in Hin.
    destruct (loadDevices_lookup _ _ _ _ _ _ Hload Hin) as [Hempty | (c & Hc & _ & Hd)].
    { rewrite lookup_empty in Hempty. discriminate. }
    rewrite Forall_forall in Hall. destruct (Hall c Hc) as [H1 H2].
    destruct (loadDevice_fields _ _ _ Hd) as (_ & _ & _ & Hrest).
    apply Hrest; assumption. }
  split; [assumption|].
  apply (handleJoin_rejected g payload env zeroJoinRequest None).
  rewrite parseJoinRequestPacket_fields by assumption. cbv zeta.
  rewrite match_devices_unmatched; [reflexivity|].
  eapply Forall_impl; [exact Heui|]. simpl. intros d Hd Heq.
  rewrite Hd in Heq. apply (f_equal length) in Heq.
  rewrite length_reverse in Heq. simpl in Heq.
  rewrite length_take, length_drop in Heq. unfold cap, backing in *.
  rewrite length_app in Heq. lia.
Qed.

(** X26: the first device that fails to load ends newGateway, after the
    hardware has been set up and with the poll loop not started: a decoding
    error of the device is returned as the error, and an app key of an OTAA
    device that decodes to fewer than 16 bytes panics in the conversion to
    the key type. *)
Theorem newGateway_first_failure (hex : string → list byte * option error)
    (before after : list DeviceConfig.t) (c : DeviceConfig.t) :
  Forall (λ c', ∃ dev, loadDevice hex c' = Done (dev, None)) before →
  (∀ dev e,
     loadDevice hex c = Done (dev, Some e) →
     newGateway hex (mkConfig (before ++ c :: after), None) 0
     = Done ([HalInitGPIO; HalResetGPIO; HalSetUpGateway 0], None, Some e)) ∧
  (∀ key,
     DeviceConfig.JoinType c = "OTAA" ∨ DeviceConfig.JoinType c = "" →
     hex (DeviceConfig.AppKey c) = (key, None) →
     (length key < 16)%nat →
     newGateway hex (mkConfig (before ++ c :: after), None) 0
     = Panic SliceToArrayTooShort).
Proof.
  intros Hbefore.
  destruct (loadDevices_ok hex before ∅ Hbefore) as [m1 Hm1].
  split.
  - intros dev e Hc. unfold newGateway. simpl.
    rewrite loadDevices_app, Hm1. simpl. rewrite Hc. reflexivity.
  - intros key Hjt Hkey Hlen.
    assert (Hc : loadDevice hex c = Panic SliceToArrayTooShort).
    { unfold loadDevice.
      replace (bool_decide (DeviceConfig.JoinType c = "OTAA")
               || bool_decide (DeviceConfig.JoinType c = "")) with true.
      2:{ symmetry. apply orb_true_iff.
          destruct Hjt as [H|H]; [left|right]; apply bool_decide_eq_true_2; assumption. }
      rewrite Hkey. unfold to_array.
      rewrite bool_decide_eq_false_2 by lia. reflexivity. }
    unfold newGateway. simpl.
    rewrite loadDevices_app, Hm1. simpl. rewrite Hc. reflexivity.
Qed.

(** ** Resetting the concentrator *)

Ltac split_answers :=
  repeat match goal with
         | |- context [set_error ?b ?k] =>
             let E := fresh "Eset" in destruct (set_error b k) eqn:E; simpl
         | |- context [ctx_live ?b ?k] =>
             let E := fresh "Elive" in destruct (ctx_live b k) eqn:E; simpl
         end.

(** X27: resetGateway makes the calls of its plan in order (power pin high
    and a wait when a power pin is given, then reset pin high, a wait,
    reset pin low, a wait) and stops at the first call that fails: the calls
    made are a non-empty prefix of the plan; a result without error means
    the whole plan was carried out, and is what a board that answers every
    call without error gets; an error is the error of the last call made,
    the context-cancelled error when that call is a wait. *)
Theorem resetGateway_follows_plan (b : board) (pwr : bool) :
  ∃ calls err,
    resetGateway b true pwr [] = Done (calls, err) ∧
    calls `prefix_of` reset_plan pwr ∧
    calls ≠ [] ∧
    (err = None → calls = reset_plan pwr) ∧
    ((∀ k, set_error b k = None ∧ ctx_live b k = true) → err = None) ∧
    (∀ e, err = Some e →
       match last calls with
       | Some (CallSet _ _) => set_error b (length calls - 1) = Some e
       | Some CallWait =>
           ctx_live b (length calls - 1) = false ∧ e = ErrNew "context cancelled"
       | None => False
       end).
Proof.
  unfold resetGateway, pin_Set, waitGPIO, reset_plan.
  destruct pwr; simpl; split_answers;
    (eexists _, _; split; [reflexivity|];
     split; [eexists; reflexivity|];
     split; [discriminate|];
     split; [intros; (discriminate || reflexivity)|];
     split; [intros Hok; try reflexivity; exfalso;
             repeat match goal with
                    | E : set_error b ?k = Some _ |- _ =>
                        rewrite (proj1 (Hok k)) in E; discriminate E
                    | E : ctx_live b ?k = false |- _ =>
                        rewrite (proj2 (Hok k)) in E; discriminate E
                    end|];
     intros e' He'; try discriminate; injection He' as <-; simpl; auto).
Qed.

(** ** Package gpio *)

Ltac split_failures :=
  repeat match goal with
         | |- context [?f ?k] =>
             match type of f with
             | nat → option string =>
                 let E := fresh "Efail" in destruct (f k) eqn:E; simpl
             end
         end.

(** X28: InitGateway runs the commands of its plan in order, with the one
    tool of the system, and stops at the first command that fails: the
    commands run are a prefix of the plan, a result without error means
    all of them were run, and an error comes from the last call made, a
    command, with its pin, its state and the text of its failure in the
    message. *)
Theorem InitGateway_follows_plan (Itoa : Z → string) (failure : nat → option string)
    (resetPin : Z) (powerPin : option Z) (bookworm : bool) :
  ∃ calls err,
    gpio.InitGateway Itoa failure (Some resetPin) powerPin bookworm [] = Done (calls, err) ∧
    gpio_commands calls
      `prefix_of` gpio_plan (Itoa resetPin)
                    (match powerPin with Some p => Itoa p | None => "" end) bookworm ∧
    (err = None →
       gpio_commands calls
       = gpio_plan (Itoa resetPin)
           (match powerPin with Some p => Itoa p | None => "" end) bookworm) ∧
    (∀ e, err = Some e →
       ∃ program pin state text,
         last calls = Some (gpio.Command program pin state) ∧
         failure (length calls - 1)%nat = Some text ∧
         e = ErrNew ("error setting GPIO " +:+ pin +:+ " to " +:+ state +:+ ": " +:+ text)).
Proof.
  unfold gpio.InitGateway, gpio.initGPIO, gpio.resetGPIO, gpio.pinctrlSet,
    gpio.waitGPIO, gpio_plan.
  set (pwr := match powerPin with Some p => Itoa p | None => "" end).
  destruct bookworm; simpl;
    destruct (bool_decide (pwr ≠ "")); simpl; split_failures.
  all: eexists _, _; (split; [reflexivity|]).
  all: split; [eexists; reflexivity|].
  all: split; [intros; (discriminate || reflexivity)|].
  all: intros e' He'; try discriminate.
  all: injection He' as <-.
  all: eexists _, _, _, _; (split; [reflexivity|]).
  all: split; [eassumption | reflexivity].
Qed.

(** X29: when every command runs, InitGateway returns without error and
    its calls are exactly the commands of the plan, each followed by a sleep
    of 100 ms (and announced by a printed line when the system is not
    bookworm); the power pin is set to output and never driven. *)
Theorem InitGateway_success (Itoa : Z → string) (failure : nat → option string)
    (resetPin : Z) (powerPin : option Z) (bookworm : bool) :
  (∀ k, failure k = None) →
  gpio.InitGateway Itoa failure (Some resetPin) powerPin bookworm []
  = Done (gpio_trace (gpio_plan (Itoa resetPin)
                        (match powerPin with Some p => Itoa p | None => "" end) bookworm)
                     bookworm, None).
Proof.
  intros Hok.
  unfold gpio.InitGateway, gpio.initGPIO, gpio.resetGPIO, gpio.pinctrlSet,
    gpio.waitGPIO, gpio_plan, gpio_trace.
  set (pwr := match powerPin with Some p => Itoa p | None => "" end).
  destruct bookworm; simpl; rewrite ?Hok; simpl;
    destruct (bool_decide (pwr ≠ "")); simpl; rewrite ?Hok; simpl; reflexivity.
Qed.

End Gateway.

(** * The statements on the fixtures *)

Local Open Scope Z_scope.
Local Open Scope string_scope.
Local Open Scope list_scope.

(** A join of [fixture_zero_eui_device]: the derivation fails, the call
    ends with KeyDerivationFailed, and the device, which had no address,
    now has the generated one; handleJoin stores that device. *)
Lemma GenerateJoinAccept_failure_keeps_new_addr :
  GenerateJoinAccept test_mic test_encrypt test_derive test_draws
    fixture_zero_eui_device (wire_request fixture_zero_join_payload) 1 2
  = Done (set_addr fixture_zero_eui_device [1; 2; 2; 237],
          ([], Some (KeyDerivationFailed (ErrCollaborator 1)))) ∧
  addr fixture_zero_eui_device = [] ∧
  addr (set_addr fixture_zero_eui_device [1; 2; 2; 237]) ≠ addr fixture_zero_eui_device ∧
  handleJoin test_mic test_mic test_encrypt test_derive test_draws
    (mkGateway (∅ : gmap string (iface Z)) [fixture_zero_eui_device] [])
    fixture_zero_join_payload fixture_env
  = Done (mkGateway ∅ [set_addr fixture_zero_eui_device [1; 2; 2; 237]] [],
          Some (KeyDerivationFailed (ErrCollaborator 1))).
Proof.
  split; [vm_compute; reflexivity|].
  split; [reflexivity|].
  split; [discriminate | vm_compute; reflexivity].
Defined.

Lemma GenerateJoinAccept_session_state_witness :
  GenerateJoinAccept test_mic test_encrypt test_derive test_draws
    fixture_zero_eui_device (wire_request fixture_zero_join_payload) 1 2
  = Done (set_addr fixture_zero_eui_device (generateDevAddr test_draws 2),
          ([], Some (KeyDerivationFailed (ErrCollaborator 1)))) ∧
  appSKey (set_addr fixture_zero_eui_device (generateDevAddr test_draws 2))
  = appSKey fixture_zero_eui_device ∧
  addr (set_addr fixture_zero_eui_device (generateDevAddr test_draws 2))
  = generateDevAddr test_draws 2.
Proof.
  eapply (proj1 (GenerateJoinAccept_session_state test_mic test_encrypt test_derive
                   test_draws fixture_zero_eui_device
                   (wire_request fixture_zero_join_payload) 1 2)).
  - vm_compute. lia.
  - vm_compute. reflexivity.
  - vm_compute. reflexivity.
Defined.

Lemma parseJoinRequestPacket_short_panics_witness :
  parseJoinRequestPacket test_mic fixture_short_payload (devices fixture_gateway)
  = Panic SliceBoundsOutOfRange ∧
  handlePacket test_mic test_mic test_encrypt test_derive test_draws test_decoder
    fixture_gateway fixture_short_payload fixture_env
  = Panic SliceBoundsOutOfRange.
Proof.
  apply parseJoinRequestPacket_short_panics; [vm_compute; lia | reflexivity].
Defined.

Lemma handlePacket_failed_uplink_updates_witness :
  ∃ g',
    handlePacket test_mic test_mic test_encrypt test_derive test_draws test_decoder
      fixture_gateway fixture_uplink_payload fixture_env = Done g' ∧
    lastReadings g' = <["" := IfaceMap None]> (lastReadings fixture_gateway) ∧
    lastReadings g' ≠ lastReadings fixture_gateway.
Proof.
  apply (handlePacket_failed_uplink_updates test_mic test_mic test_encrypt test_derive
           test_draws test_decoder fixture_gateway fixture_uplink_payload fixture_env
           "" None (ErrCollaborator 2)); reflexivity.
Defined.

(** A payload of 24 bytes whose bytes [19:23) are the computed MIC is
    rejected. *)
Lemma validateMIC_rejects_longer_payload :
  (23 ≤ len fixture_long_payload)%nat ∧
  (test_mic fixture_key (take 19 (elems fixture_long_payload))).2 = None ∧
  take 4 (drop 19 (elems fixture_long_payload))
  = mic_slice (test_mic fixture_key (take 19 (elems fixture_long_payload))).1 ∧
  validateMIC test_mic fixture_key fixture_long_payload = Done (Some InvalidMIC).
Proof.
  split; [vm_compute; lia|]. repeat split; vm_compute; reflexivity.
Defined.

Lemma validateMIC_compares_tail_witness :
  validateMIC test_mic fixture_key fixture_join_payload = Done None.
Proof.
  assert (Hlen : (23 ≤ len fixture_join_payload)%nat) by (vm_compute; lia).
  destruct (validateMIC_compares_tail (Val:=Z) test_mic test_mic test_encrypt test_derive
              test_draws fixture_key fixture_join_payload Hlen) as [Hiff _].
  apply Hiff. split; vm_compute; reflexivity.
Defined.

Lemma GenerateJoinAccept_frame_witness :
  ∃ j1 j2 j3 a3 a4 resMIC,
    generateJoinNonce test_draws 1 = [j1; j2; j3] ∧
    generateDevAddr test_draws 2 = [1; 2; a3; a4] ∧
    addr (set_appSKey (set_addr fixture_device [1; 2; 2; 237])
            [1; 236; 216; 1; 2; 3; 18; 52; 0; 1; 2; 3; 4; 5; 6; 7]) = [1; 2; a3; a4] ∧
    test_mic (AppKey fixture_device)
      [0x20; j3; j2; j1; 3; 2; 1; a4; a3; 2; 1; 0x00; 0x01] = (resMIC, None) ∧
    [32; 160; 148; 121; 123; 122; 121; 149; 122; 122; 121; 120; 121; 46; 117; 221; 34]
    = 0x20 :: (test_encrypt (AppKey fixture_device)
                 ([j3; j2; j1; 3; 2; 1; a4; a3; 2; 1; 0x00; 0x01] ++ mic_slice resMIC)).1.
Proof.
  apply (GenerateJoinAccept_frame test_mic test_encrypt test_derive test_draws
           fixture_device (wire_request fixture_join_payload) 1 2).
  vm_compute. reflexivity.
Defined.

Lemma Validate_ignores_later_devices_witness :
  Validate fixture_config "gateway" = valid ∧
  DeviceConfig.DecoderPath fixture_no_decoder_config = "" ∧
  ¬ spec_well_sized fixture_no_decoder_config.
Proof.
  split.
  - apply (Validate_ignores_later_devices fixture_otaa_config
             [fixture_no_decoder_config] "gateway").
    split; [discriminate|]. right. split; [left; reflexivity|]. split; reflexivity.
  - split; [reflexivity|]. intros [H _]. apply H. reflexivity.
Defined.

Lemma handleJoin_unknown_device_witness :
  handleJoin test_mic test_mic test_encrypt test_derive test_draws
    fixture_gateway fixture_zero_join_payload fixture_env
  = Done (fixture_gateway, Some UnknownDevice) ∧
  handlePacket test_mic test_mic test_encrypt test_derive test_draws test_decoder
    fixture_gateway fixture_zero_join_payload fixture_env
  = Done fixture_gateway.
Proof.
  assert (Hcap : (23 ≤ cap fixture_zero_join_payload)%nat) by (vm_compute; lia).
  assert (Hall : Forall (λ d, devEui d ≠
                   reverse (take 8 (drop 9 (backing fixture_zero_join_payload))))
                   (devices fixture_gateway)).
  { repeat constructor. discriminate. }
  split.
  - apply (handleJoin_unknown_device test_mic test_mic test_encrypt test_derive
             test_draws test_decoder fixture_gateway fixture_zero_join_payload
             fixture_env Hcap Hall).
  - apply (handleJoin_unknown_device test_mic test_mic test_encrypt test_derive
             test_draws test_decoder fixture_gateway fixture_zero_join_payload
             fixture_env Hcap Hall).
    reflexivity.
Defined.

Lemma updateReadings_nil_entry_panics_witness :
  updateReadings (∅ : gmap string (iface Z)) "dev" None
  = Done {[ "dev" := IfaceMap None ]} ∧
  updateReadings ({[ "dev" := IfaceMap None ]} : gmap string (iface Z)) "dev"
    (Some {[ "a" := 1 ]})
  = Panic AssignToNilMap.
Proof.
  split; [reflexivity|].
  apply updateReadings_nil_entry_panics; [reflexivity|].
  intros H. apply (f_equal (λ m : gmap string Z, m !! "a")) in H. discriminate H.
Defined.

(** The join of [fixture_device] goes through: the device gets its address
    and session key and one packet of 17 bytes is handed to the radio. *)
Lemma handleJoin_fixture_transmits :
  ∃ d' pkt,
    handleJoin test_mic test_mic test_encrypt test_derive test_draws
      fixture_gateway fixture_join_payload fixture_env
    = Done (mkGateway ∅ [d'] [pkt], None) ∧
    addr d' = [1; 2; 2; 237] ∧
    appSKey d' = [1; 236; 216; 1; 2; 3; 18; 52; 0; 1; 2; 3; 4; 5; 6; 7] ∧
    size pkt = 17 ∧
    invert_pol pkt = true ∧
    take 17 (tx_payload pkt)
    = [32; 160; 148; 121; 123; 122; 121; 149; 122; 122; 121; 120; 121; 46; 117; 221; 34].
Proof.
  eexists _, _. split; [vm_compute; reflexivity|]. repeat split; reflexivity.
Qed.

(** * Further properties: the collaborators *)

Lemma validateMIC_agree (mic1 mic2 : AES128Key → list byte → mic4 * option error)
    (appKey : AES128Key) (payload : slice) :
  (∀ k m, length m = 19%nat → mic1 k m = mic2 k m) →
  validateMIC mic1 appKey payload = validateMIC mic2 appKey payload.
Proof.
  intros Hmic. unfold validateMIC, reslice_to.
  destruct (reslice payload 0 19) as [prefix|p] eqn:Hprefix; [|reflexivity].
  simpl. rewrite (Hmic appKey (elems prefix)); [reflexivity|].
  apply reslice_len in Hprefix. exact Hprefix.
Qed.

Lemma parseJoinRequestPacket_agree
    (mic1 mic2 : AES128Key → list byte → mic4 * option error)
    (payload : slice) (devs : list Device) :
  (∀ k m, length m = 19%nat → mic1 k m = mic2 k m) →
  parseJoinRequestPacket mic1 payload devs = parseJoinRequestPacket mic2 payload devs.
Proof.
  intros Hmic. destruct (decide (cap payload < 23)%nat) as [Hshort|Hcap].
  - rewrite !parseJoinRequestPacket_short by assumption. reflexivity.
  - rewrite !parseJoinRequestPacket_fields by lia. cbv zeta.
    rewrite (validateMIC_agree mic1 mic2) by assumption. reflexivity.
Qed.

Lemma GenerateJoinAccept_agree
    (acc1 acc2 : AES128Key → list byte → mic4 * option error)
    (enc1 enc2 : AES128Key → list byte → list byte * option error)
    (der1 der2 : AES128Key → list byte → list byte → list byte → list byte → list byte →
                 AES128Key * option error)
    (draws : Z → nat → Z) (d : Device) (jr : JoinRequest) (tNonce tAddr : Z) :
  (∀ k m, length m = 13%nat → acc1 k m = acc2 k m) →
  (∀ k m, length m = 16%nat → enc1 k m = enc2 k m) →
  (∀ k jn dn, length jn = 3%nat → length dn = 2%nat →
     der1 k (elems (joinEUI jr)) (elems (devEUI jr)) jn dn [1; 2; 3]
     = der2 k (elems (joinEUI jr)) (elems (devEUI jr)) jn dn [1; 2; 3]) →
  GenerateJoinAccept acc1 enc1 der1 draws d jr tNonce tAddr
  = GenerateJoinAccept acc2 enc2 der2 draws d jr tNonce tAddr.
Proof.
  intros Hacc Henc Hder. rewrite !GenerateJoinAccept_unfold. cbv zeta.
  rewrite (Hacc (AppKey d)) by reflexivity.
  destruct (acc2 _ _) as [resMIC [e|]]; [reflexivity|].
  rewrite (Henc (AppKey d)) by reflexivity.
  case_bool_decide as Hlen; [|reflexivity].
  change netID with [1; 2; 3].
  rewrite Hder; [reflexivity | reflexivity |].
  rewrite length_take, length_reverse. unfold len in Hlen. lia.
Qed.

(** X12: handleJoin reads its cryptographic collaborators only at inputs of
    the sizes the LoRaWAN functions are defined on: the join-request MIC over
    19 bytes, the join-accept MIC over 13 bytes, the encryption over 16
    bytes, and the key derivation with a join EUI and a dev EUI of 8 bytes,
    a join nonce of 3, a dev nonce of 2 and the net id 1, 2, 3.
    Collaborators that agree on those inputs give the same result. *)
Theorem handleJoin_collaborator_inputs {Val : Type}
    (mic1 mic2 acc1 acc2 : AES128Key → list byte → mic4 * option error)
    (enc1 enc2 : AES128Key → list byte → list byte * option error)
    (der1 der2 : AES128Key → list byte → list byte → list byte → list byte → list byte →
                 AES128Key * option error)
    (draws : Z → nat → Z) (g : Gateway Val) (payload : slice) (env : join_env) :
  (∀ k m, length m = 19%nat → mic1 k m = mic2 k m) →
  (∀ k m, length m = 13%nat → acc1 k m = acc2 k m) →
  (∀ k m, length m = 16%nat → enc1 k m = enc2 k m) →
  (∀ k je de jn dn,
     length je = 8%nat → length de = 8%nat → length jn = 3%nat → length dn = 2%nat →
     der1 k je de jn dn [1; 2; 3] = der2 k je de jn dn [1; 2; 3]) →
  handleJoin mic1 acc1 enc1 der1 draws g payload env
  = handleJoin mic2 acc2 enc2 der2 draws g payload env.
Proof.
  intros Hmic Hacc Henc Hder. unfold handleJoin.
  rewrite (parseJoinRequestPacket_agree mic1 mic2) by assumption.
  destruct (parseJoinRequestPacket mic2 payload (devices g))
    as [[[jr device] [e|]]|p] eqn:Hp; rewrite ?bind_Done; try reflexivity.
  destruct device as [i|]; [|reflexivity].
  pose proof (parseJoinRequestPacket_accepts_23_bytes_aux mic2 _ _ _ _ Hp) as Hlen.
  destruct (parseJoinRequestPacket_success_inv _ _ _ _ _ Hp) as (-> & _).
  rewrite (GenerateJoinAccept_agree acc1 acc2 enc1 enc2 der1 der2); try assumption.
  - reflexivity.
  - intros k jn dn Hjn Hdn. apply Hder; try assumption;
      simpl; rewrite length_take, length_drop; unfold backing, len in *;
      rewrite length_app; lia.
Qed.

(** * The further properties on the fixtures *)

Lemma Validate_checks_lengths_only_witness :
  Validate (mkConfig [fixture_otaa_config]) "gateway"
  = Validate (mkConfig [fixture_nonhex_config]) "gateway" ∧
  Validate (mkConfig [fixture_nonhex_config]) "gateway" = valid.
Proof.
  split; [|reflexivity].
  apply Validate_checks_lengths_only; reflexivity.
Defined.

Lemma updateReadings_merged_lookup_witness :
  ∃ merged,
    updateReadings ({[ "dev" := IfaceMap (Some {[ "a" := 1 ]}) ]} : gmap string (iface Z))
      "dev" (Some (<[ "a" := 2 ]> {[ "b" := 3 ]}))
    = Done (<[ "dev" := IfaceMap (Some merged) ]>
              {[ "dev" := IfaceMap (Some {[ "a" := 1 ]}) ]}) ∧
    ∀ key, merged !! key = match (<[ "a" := 2 ]> {[ "b" := 3 ]} : gmap string Z) !! key with
                           | Some v => Some v
                           | None => ({[ "a" := 1 ]} : gmap string Z) !! key
                           end.
Proof. apply updateReadings_merged_lookup. reflexivity. Defined.


Lemma updateReadings_idempotent_witness :
  updateReadings (<[ "dev" := IfaceMap (Some {[ "a" := 1 ]}) ]>
                    {[ "other" := IfaceMap (Some {[ "t" := 20 ]}) ]}
                  : gmap string (iface Z)) "dev" (Some {[ "a" := 1 ]})
  = Done (<[ "dev" := IfaceMap (Some {[ "a" := 1 ]}) ]>
            {[ "other" := IfaceMap (Some {[ "t" := 20 ]}) ]}).
Proof.
  apply (updateReadings_idempotent {[ "other" := IfaceMap (Some {[ "t" := 20 ]}) ]}).
  reflexivity.
Defined.


Lemma parseJoinRequestPacket_accepts_23_bytes_witness :
  len fixture_join_payload = 23%nat.
Proof.
  apply (parseJoinRequestPacket_accepts_23_bytes test_mic fixture_join_payload
           [fixture_device] (wire_request fixture_join_payload) (Some 0%nat)).
  vm_compute. reflexivity.
Defined.

Lemma parseJoinRequestPacket_authenticated_witness :
  wire_request fixture_join_payload = wire_request fixture_join_payload ∧
  ∃ (i : nat) (d : Device),
    Some 0%nat = Some i ∧ [fixture_device] !! i = Some d ∧ name d ≠ "" ∧
    devEui d = reverse (elems (devEUI (wire_request fixture_join_payload))) ∧
    validateMIC test_mic (AppKey d) fixture_join_payload = Done None ∧
    ∀ (j : nat) (d' : Device),
      (i < j)%nat → [fixture_device] !! j = Some d' →
      devEui d' ≠ reverse (elems (devEUI (wire_request fixture_join_payload))).
Proof.
  apply (parseJoinRequestPacket_authenticated test_mic fixture_join_payload
           [fixture_device] (wire_request fixture_join_payload) (Some 0%nat)).
  vm_compute. reflexivity.
Defined.

Lemma parseJoinRequestPacket_nameless_device_witness :
  parseJoinRequestPacket test_mic fixture_join_payload
    ([fixture_device] ++ fixture_nameless_device :: [])
  = Done (zeroJoinRequest, None, Some UnknownDevice).
Proof.
  apply parseJoinRequestPacket_nameless_device.
  - vm_compute. lia.
  - reflexivity.
  - reflexivity.
  - constructor.
Defined.

Lemma handleJoin_collaborator_inputs_witness :
  handleJoin test_mic test_mic test_encrypt test_derive test_draws
    fixture_gateway fixture_join_payload fixture_env
  = handleJoin (test_mic_sized 19) (test_mic_sized 13) test_encrypt_sized
      test_derive_sized test_draws fixture_gateway fixture_join_payload fixture_env.
Proof.
  apply handleJoin_collaborator_inputs.
  - intros k m H. unfold test_mic_sized. rewrite bool_decide_eq_true_2 by assumption.
    reflexivity.
  - intros k m H. unfold test_mic_sized. rewrite bool_decide_eq_true_2 by assumption.
    reflexivity.
  - intros k m H. unfold test_encrypt_sized. rewrite bool_decide_eq_true_2 by assumption.
    reflexivity.
  - intros k je de jn dn H1 H2 H3 H4. unfold test_derive_sized.
    rewrite bool_decide_eq_true_2 by auto. reflexivity.
Defined.

Lemma GenerateJoinAccept_preserves_identity_witness :
  name fixture_joined_device = name fixture_device ∧
  decoderPath fixture_joined_device = decoderPath fixture_device ∧
  nwkSKey fixture_joined_device = nwkSKey fixture_device ∧
  AppKey fixture_joined_device = AppKey fixture_device ∧
  devEui fixture_joined_device = devEui fixture_device.
Proof.
  apply (GenerateJoinAccept_preserves_identity test_mic test_encrypt test_derive test_draws
           fixture_device (wire_request fixture_join_payload) 1 2
           fixture_joined_device (fixture_join_accept, None)).
  vm_compute. reflexivity.
Defined.

Lemma handleJoin_transmits_witness :
  handleJoin test_mic test_mic test_encrypt test_derive test_draws
    fixture_gateway fixture_join_payload fixture_env
  = Done (mkGateway (lastReadings fixture_gateway)
            (<[0%nat := fixture_joined_device]> (devices fixture_gateway))
            (sent fixture_gateway
             ++ [mkTxPkt 923300000 0 0 26 0x10 0x06 12 0x01 true
                   (Z.of_nat (length fixture_join_accept))
                   (fixture_join_accept ++ replicate (256 - length fixture_join_accept) 0)]),
          if bool_decide (send_status fixture_env = 0) then None
          else Some RadioTransmitFailed).
Proof.
  apply (handleJoin_transmits test_mic test_mic test_encrypt test_derive test_draws
           fixture_gateway fixture_join_payload fixture_env
           (wire_request fixture_join_payload)).
  - vm_compute. reflexivity.
  - vm_compute. reflexivity.
  - vm_compute. lia.
Defined.

Lemma handleJoin_frame_witness :
  lastReadings (mkGateway (∅ : gmap string (iface Z)) [fixture_joined_device]
                  [mkTxPkt 923300000 0 0 26 0x10 0x06 12 0x01 true 17
                     (fixture_join_accept ++ replicate 239 0)])
  = lastReadings fixture_gateway ∧
  (∃ pkt, [mkTxPkt 923300000 0 0 26 0x10 0x06 12 0x01 true 17
             (fixture_join_accept ++ replicate 239 0)]
          = sent fixture_gateway ++ [pkt]) ∧
  length [fixture_joined_device] = length (devices fixture_gateway) ∧
  name fixture_joined_device = name fixture_device ∧
  AppKey fixture_joined_device = AppKey fixture_device ∧
  devEui fixture_joined_device = devEui fixture_device.
Proof.
  destruct (handleJoin_frame test_mic test_mic test_encrypt test_derive test_draws
              fixture_gateway
              (mkGateway (∅ : gmap string (iface Z)) [fixture_joined_device]
                 [mkTxPkt 923300000 0 0 26 0x10 0x06 12 0x01 true 17
                    (fixture_join_accept ++ replicate 239 0)])
              fixture_join_payload fixture_env None)
    as (Hr & Hs & Hl & _ & Hid).
  { vm_compute. reflexivity. }
  split; [exact Hr|]. split; [eexists; reflexivity|]. split; [exact Hl|].
  destruct (Hid 0%nat fixture_device fixture_joined_device eq_refl eq_refl)
    as (Hn & _ & _ & Hk & He).
  auto.
Defined.

Lemma handleJoin_acts_on_authenticated_witness :
  len fixture_join_payload = 23%nat ∧
  ∃ (i : nat) (d : Device),
    devices fixture_gateway !! i = Some d ∧ name d ≠ "" ∧
    devEui d = reverse (take 8 (drop 9 (elems fixture_join_payload))) ∧
    validateMIC test_mic (AppKey d) fixture_join_payload = Done None.
Proof.
  apply (handleJoin_acts_on_authenticated test_mic test_mic test_encrypt test_derive
           test_draws fixture_gateway
           (mkGateway (∅ : gmap string (iface Z)) [fixture_joined_device]
              [mkTxPkt 923300000 0 0 26 0x10 0x06 12 0x01 true 17
                 (fixture_join_accept ++ replicate 239 0)])
           fixture_join_payload fixture_env None).
  - vm_compute. reflexivity.
  - intros H. apply (f_equal sent) in H. discriminate H.
Defined.

Lemma handlePacket_other_mhdr_witness :
  handlePacket test_mic test_mic test_encrypt test_derive test_draws test_decoder
    fixture_gateway (Slice [0xFF; 0x01] []) fixture_env
  = Done fixture_gateway.
Proof.
  apply (proj2 (handlePacket_other_mhdr test_mic test_mic test_encrypt test_derive
                  test_draws test_decoder fixture_gateway (Slice [0xFF; 0x01] [])
                  fixture_env) 0xFF); [reflexivity | discriminate | discriminate].
Defined.

Lemma handlePacket_separation_witness :
  devices (mkGateway ({[ "sensor" := IfaceMap (Some {[ "value" := 7 ]}) ]}
                      : gmap string (iface Z)) [fixture_device] [])
  = devices fixture_gateway ∧
  sent (mkGateway ({[ "sensor" := IfaceMap (Some {[ "value" := 7 ]}) ]}
                   : gmap string (iface Z)) [fixture_device] [])
  = sent fixture_gateway ∧
  updateReadings (lastReadings fixture_gateway)
    (test_decoder fixture_gateway fixture_uplink_ok_payload).1.1
    (test_decoder fixture_gateway fixture_uplink_ok_payload).1.2
  = Done {[ "sensor" := IfaceMap (Some {[ "value" := 7 ]}) ]}.
Proof.
  destruct (handlePacket_separation test_mic test_mic test_encrypt test_derive test_draws
              test_decoder fixture_gateway
              (mkGateway ({[ "sensor" := IfaceMap (Some {[ "value" := 7 ]}) ]}
                          : gmap string (iface Z)) [fixture_device] [])
              fixture_uplink_ok_payload fixture_env 0x40) as [Huplink _];
    [reflexivity | vm_compute; reflexivity |].
  apply Huplink. reflexivity.
Defined.

Lemma receiveIteration_oversize_crashes_witness :
  receiveIteration fixture_oversize_event = Crash IndexOutOfRange.
Proof.
  apply receiveIteration_oversize_crashes; [reflexivity | reflexivity | vm_compute; lia].
Defined.

Lemma newGateway_devices_witness :
  [HalInitGPIO; HalResetGPIO; HalSetUpGateway 0; HalReceivePackets]
  = [HalInitGPIO; HalResetGPIO; HalSetUpGateway 0; HalReceivePackets] ∧
  (∀ c, c ∈ [fixture_otaa_config; fixture_abp_config] →
     is_Some ((<[ "dragino" := fixture_otaa_loaded ]> {[ "meter" := fixture_abp_loaded ]}
               : gmap string Device) !! DeviceConfig.Name c)) ∧
  (∀ (key : string) (dev : Device),
     (<[ "dragino" := fixture_otaa_loaded ]> {[ "meter" := fixture_abp_loaded ]}
      : gmap string Device) !! key = Some dev →
     name dev = key ∧ nwkSKey dev = zeroKey ∧
     ∃ c, c ∈ [fixture_otaa_config; fixture_abp_config] ∧ DeviceConfig.Name c = key ∧
          loadDevice test_hex c = Done (dev, None)).
Proof.
  apply (newGateway_devices test_hex
           (mkConfig [fixture_otaa_config; fixture_abp_config]) 0).
  vm_compute. reflexivity.
Defined.

Lemma newGateway_last_name_wins_witness :
  ∃ dev, loadDevice test_hex fixture_otaa_config = Done (dev, None) ∧
         (<[ "dragino" := fixture_otaa_loaded ]> {[ "meter" := fixture_abp_loaded ]}
          : gmap string Device) !! DeviceConfig.Name fixture_otaa_config = Some dev.
Proof.
  apply (newGateway_last_name_wins test_hex [fixture_otaa_config_old]
           [fixture_abp_config] fixture_otaa_config 0
           [HalInitGPIO; HalResetGPIO; HalSetUpGateway 0; HalReceivePackets]).
  - vm_compute. reflexivity.
  - repeat constructor. discriminate.
Defined.

Lemma newGateway_without_otaa_never_joins_witness :
  Forall (λ d, devEui d = [])
    (devices (mkGateway (∅ : gmap string (iface Z)) [fixture_abp_loaded] [])) ∧
  handleJoin test_mic test_mic test_encrypt test_derive test_draws
    (mkGateway (∅ : gmap string (iface Z)) [fixture_abp_loaded] [])
    fixture_join_payload fixture_env
  = Done (mkGateway ∅ [fixture_abp_loaded] [], Some UnknownDevice).
Proof.
  apply (newGateway_without_otaa_never_joins test_mic test_mic test_encrypt test_derive
           test_draws test_hex (mkConfig [fixture_abp_config]) 0
           [HalInitGPIO; HalResetGPIO; HalSetUpGateway 0; HalReceivePackets]
           {[ "meter" := fixture_abp_loaded ]}).
  - vm_compute. reflexivity.
  - repeat constructor; discriminate.
  - split; [reflexivity|]. split; [reflexivity|].
    simpl. rewrite map_to_list_singleton. reflexivity.
  - vm_compute. lia.
Defined.

(** The configuration that Validate accepts on its first device makes
    newGateway panic on its second one. *)
Lemma newGateway_first_failure_witness :
  Validate fixture_config "gateway" = valid ∧
  newGateway test_hex (fixture_config, None) 0 = Panic SliceToArrayTooShort.
Proof.
  split; [reflexivity|].
  assert (Hbefore : Forall (λ c', ∃ dev, loadDevice test_hex c' = Done (dev, None))
                      [fixture_otaa_config]).
  { repeat constructor. eexists. vm_compute. reflexivity. }
  apply (proj2 (newGateway_first_failure test_hex [fixture_otaa_config] []
                  fixture_no_decoder_config Hbefore) []);
    [left; reflexivity | reflexivity | vm_compute; lia].
Defined.

Lemma InitGateway_success_witness :
  gpio.InitGateway test_Itoa (λ _, None) (Some 17) (Some 18) false []
  = Done ([gpio.Println "here using thisraspi-gpioe"; gpio.Command "raspi-gpio" "17" "op";
           gpio.Sleep;
           gpio.Println "here using thisraspi-gpioe"; gpio.Command "raspi-gpio" "18" "op";
           gpio.Sleep;
           gpio.Println "here using thisraspi-gpioe"; gpio.Command "raspi-gpio" "17" "dh";
           gpio.Sleep;
           gpio.Println "here using thisraspi-gpioe"; gpio.Command "raspi-gpio" "17" "dl";
           gpio.Sleep], None).
Proof.
  apply (InitGateway_success test_Itoa (λ _, None) 17 (Some 18) false). reflexivity.
Defined.
